(** * A shallow embedding of the engine's component core

    The development follows four source files of the engine:

    - [framework/components/component.js]: the [Component] base class, its
      schema-generated accessors and the [enabled] edge detector;
    - the animation component ([AnimComponent]): state-graph loading, the
      animation-asset manifest, typed parameter access and the per-frame
      [update];
    - [framework/components/model/component.js]: the [model] setter of
      [ModelComponent];
    - [framework/components/layout-group/layout-calculator.js]: the layout
      calculator (property resolution, line splitting, stretching).

    JavaScript numbers are idealised as exact rationals ([Q]), extended with
    the infinities where the source uses them; rounding, signed zeros and NaN
    values stored by a caller are outside the model.  A plain object used as
    a map is a finite map: keys that name a property every object inherits
    ([__proto__], [constructor], ...) are outside the model.  Objects that the source
    shares by reference are kept in one record that every operation threads
    through; exceptions are the [Throw] results of a small error monad. *)

From Stdlib Require Import ZArith QArith Qabs Qminmax Lqa Lia.
From stdpp Require Import base option list gmap strings pretty sorting.

Close Scope Q_scope.
Open Scope string_scope.
Open Scope list_scope.

(** ** JavaScript values and completion records *)

Module JS.

(** The values a component property or an animation parameter can hold. *)
Inductive value :=
| VUndefined
| VNull
| VBool (b : bool)
| VNum (q : Q)
| VStr (s : string)
| VObj (ref : nat).

(** [a === b]: numbers compare by numeric value, objects by identity. *)
Definition strict_eq (a b : value) : bool :=
  match a, b with
  | VUndefined, VUndefined => true
  | VNull, VNull => true
  | VBool x, VBool y => Bool.eqb x y
  | VNum x, VNum y => Qeq_bool x y
  | VStr x, VStr y => bool_decide (x = y)
  | VObj x, VObj y => bool_decide (x = y)
  | _, _ => false
  end.

(** ToBoolean. *)
Definition truthy (v : value) : bool :=
  match v with
  | VUndefined | VNull => false
  | VBool b => b
  | VNum q => negb (Qeq_bool q 0)
  | VStr s => negb (bool_decide (s = ""))
  | VObj _ => true
  end.

(** ToString, as [+] applies it to the right operand of ["set_" + name].
    Only integers are printed exactly; the setter always passes a string. *)
Definition to_string (v : value) : string :=
  match v with
  | VUndefined => "undefined"
  | VNull => "null"
  | VBool true => "true"
  | VBool false => "false"
  | VNum q => pretty (Qnum (Qred q) / Zpos (Qden (Qred q)))%Z
  | VStr s => s
  | VObj _ => "[object Object]"
  end.

(** [typeof v === 'number' && v % 1 === 0] *)
Definition is_integer (v : value) : bool :=
  match v with
  | VNum q => Pos.eqb (Qden (Qred q)) 1
  | _ => false
  end.

(** What a call can end in: a value or a thrown error.  [NonFinite] and
    [OutOfFuel] are limits of the model and not exceptions of the source:
    the first stands where the source would go on with an infinity or a
    NaN, the second where the nesting bound of the model runs out. *)
Inductive error :=
| TypeError
| ConfigError   (* [throw new Error(...)] on an unrecognized option *)
| NonFinite     (* a division by zero: the number leaves [Q] *)
| OutOfFuel.

Inductive result (A : Type) :=
| Ok (a : A)
| Throw (e : error).
Arguments Ok {A} a.
Arguments Throw {A} e.

Definition bind {A B} (r : result A) (k : A → result B) : result B :=
  match r with
  | Ok a => k a
  | Throw e => Throw e
  end.

End JS.

Import JS.

Notation "x ←! r ;; k" := (JS.bind r (λ x, k))
  (at level 100, r at next level, right associativity).

(** ** The [Component] base class (component.js) *)

Module Component.

(** A schema entry is an object with a [name] member or the plain name. *)
Inductive descriptor :=
| DObject (name : string) (type : string)
| DName (name : string).

Definition descriptor_name (d : descriptor) : string :=
  match d with
  | DObject name _ => name
  | DName name => name
  end.

(** The part of the owning [Entity] the class reads. *)
Record Entity := {
  guid : string;
  entity_enabled : bool
}.

(** The callbacks the source registers with [on]: the anonymous re-firing
    function of the constructor, the bound [onSetEnabled] method, and an
    observer of the application (it only takes note of the call). *)
Inductive listener :=
| ReFire
| OnSetEnabled
| Observer (id : nat).

(** What an execution leaves behind, in order. *)
Inductive action :=
| Fired (name : string) (args : list value)
| Notified (id : nat) (args : list value)
| CalledOnEnable
| CalledOnDisable.

(** [system.schema] and [system.store]; a store record is reduced to its
    [data] member. *)
Record System := {
  schema : option (list descriptor);
  store : gmap string (gmap string value)
}.

Record t := {
  system : System;
  entity : Entity;
  (** names for which [_buildAccessors] defined a getter/setter pair *)
  accessors : list string;
  (** [on] registrations, oldest first *)
  callbacks : list (string * listener);
  (** properties assigned on the object itself (no accessor) *)
  own : gmap string value;
  trace : list action
}.

Definition record (a : action) (c : t) : t :=
  {| system := system c; entity := entity c; accessors := accessors c;
     callbacks := callbacks c; own := own c; trace := trace c ++ [a] |}.

(** [get data()]: [null] (here [None]) when the store has no record. *)
Definition data (c : t) : option (gmap string value) :=
  store (system c) !! guid (entity c).

(** [data[name] = value] on the record of the store. *)
Definition write_data (name : string) (v : value) (c : t) : t :=
  {| system := {| schema := schema (system c);
                  store := alter (λ d, <[name := v]> d) (guid (entity c))
                                 (store (system c)) |};
     entity := entity c; accessors := accessors c;
     callbacks := callbacks c; own := own c; trace := trace c |}.

(** [on(name, callback)] *)
Definition on (name : string) (l : listener) (c : t) : t :=
  {| system := system c; entity := entity c; accessors := accessors c;
     callbacks := callbacks c ++ [(name, l)]; own := own c; trace := trace c |}.

Definition arg (i : nat) (args : list value) : value :=
  default VUndefined (args !! i).

(** [onSetEnabled(name, oldValue, newValue)] *)
Definition onSetEnabled (oldValue newValue : value) (c : t) : t :=
  if negb (strict_eq oldValue newValue) then
    if entity_enabled (entity c) then
      if truthy newValue then record CalledOnEnable c
      else record CalledOnDisable c
    else c
  else c.

(** One registered callback applied to the arguments of an event. *)
Definition invoke (fire : string → list value → t → result t)
    (l : listener) (args : list value) (c : t) : result t :=
  match l with
  | ReFire => fire ("set_" +:+ to_string (arg 0 args)) args c
  | OnSetEnabled => Ok (onSetEnabled (arg 1 args) (arg 2 args) c)
  | Observer id => Ok (record (Notified id args) c)
  end.

(** Modelled from the spec: [fire] of the [EventHandler] base class
    (core/event-handler.js is not among the sources).  It calls, oldest
    first, the callbacks registered under the event's name with the event's
    arguments.  A callback may fire again, so the model bounds the nesting. *)
Fixpoint fire (fuel : nat) (name : string) (args : list value) (c : t)
    : result t :=
  match fuel with
  | O => Throw OutOfFuel
  | S fuel' =>
      foldl (λ acc l, c' ←! acc ;; invoke (fire fuel') l args c')
            (Ok (record (Fired name args) c))
            (snd <$> filter (λ cb, cb.1 = name) (callbacks c))
  end.

(** The setter [_buildAccessors] defines for [name]. *)
Definition accessor_set (fuel : nat) (name : string) (v : value) (c : t)
    : result t :=
  match data c with
  | None => Throw TypeError
  | Some d =>
      let oldValue := default VUndefined (d !! name) in
      fire fuel "set" [VStr name; oldValue; v] (write_data name v c)
  end.

(** The getter [_buildAccessors] defines for [name]. *)
Definition accessor_get (name : string) (c : t) : result value :=
  match data c with
  | None => Throw TypeError
  | Some d => Ok (default VUndefined (d !! name))
  end.

(** [Component._buildAccessors(obj, schema)] *)
Definition _buildAccessors (sch : list descriptor) (c : t) : t :=
  {| system := system c; entity := entity c;
     accessors := accessors c ++ (descriptor_name <$> sch);
     callbacks := callbacks c; own := own c; trace := trace c |}.

(** [new Component(system, entity)] *)
Definition constructor (sys : System) (e : Entity) : t :=
  let c := {| system := sys; entity := e; accessors := [];
              callbacks := []; own := ∅; trace := [] |} in
  let c := match schema sys with
           | Some sch => _buildAccessors sch c
           | None => c
           end in
  on "set_enabled" OnSetEnabled (on "set" ReFire c).

(** The assignment [component[p] = v]: through the accessor when the schema
    declared [p], else a plain property write. *)
Definition assign (fuel : nat) (p : string) (v : value) (c : t) : result t :=
  if bool_decide (p ∈ accessors c) then accessor_set fuel p v c
  else Ok {| system := system c; entity := entity c;
             accessors := accessors c; callbacks := callbacks c;
             own := <[p := v]> (own c); trace := trace c |}.

(** The events of a trace, and the hook calls of a trace. *)
Definition events (tr : list action) : list (string * list value) :=
  omap (λ a, match a with Fired n args => Some (n, args) | _ => None end) tr.

Definition is_hook (a : action) : bool :=
  match a with
  | CalledOnEnable | CalledOnDisable => true
  | _ => false
  end.

Definition hooks (tr : list action) : list action :=
  filter (λ a, is_hook a) tr.

Definition count_fired (name : string) (tr : list action) : nat :=
  length (filter (λ e, e.1 = name) (events tr)).

End Component.

(** ** The animation component (AnimComponent) *)

Module Anim.

(** Modelled from the spec: the four parameter types of a state graph
    (anim/controller/constants.js, which declares [ANIM_PARAMETER_FLOAT] and
    its siblings, is not among the sources).  A graph may carry another type
    name; no typed accessor asks for it. *)
Inductive ParamType :=
| ANIM_PARAMETER_FLOAT
| ANIM_PARAMETER_INTEGER
| ANIM_PARAMETER_BOOLEAN
| ANIM_PARAMETER_TRIGGER
| OtherType (name : string).

#[global] Instance ParamType_eq_dec : EqDecision ParamType.
Proof. solve_decision. Defined.

(** An entry of [_parameters]: [{ type, value }]. *)
Record Param := {
  param_type : ParamType;
  param_value : value
}.

(** The state-graph data: layers[{name, states[], transitions[], weight,
    mask, blendType}] and parameters{name: {type, value}}. *)
Record StateDesc := {
  state_name : string;
  state_speed : Q
}.

Record LayerDesc := {
  name : string;
  states : list StateDesc;
  transitions : list (string * string);
  weight : Q;
  mask : option (list string);
  blendType : string
}.

Record StateGraph := {
  layers : list LayerDesc;
  parameters : gmap string Param
}.

(** An asset of the registry: a state graph or an animation track, loaded
    ([resource]) or not. *)
Inductive Resource :=
| GraphResource (g : StateGraph)
| TrackResource (track : nat).

Record Asset := {
  asset_id : nat;
  resource : option Resource
}.

(** Modelled from the spec: the runtime layer ([AnimComponentLayer] with its
    controller, component-layer.js and anim-controller.js are not among the
    sources).  [layer_states] is what [layer.states] returns, the names of
    the layer's states; [layer_time] is the progress its updates added up. *)
Record Layer := {
  layer_name : string;
  layer_states : list string;
  layer_transitions : list (string * string);
  layer_weight : Q;
  layer_mask : option (list string);
  layer_blendType : string;
  layer_time : Q
}.

(** An entry of the animation-asset manifest: [{ asset: id | null }]. *)
Record AssetEntry := {
  asset : option nat
}.

(** Calls into collaborators, and diagnostics, in order. *)
Inductive effect :=
| LogCannotGet (name : string) (type : ParamType)
| LogCannotSet (name : string) (type : ParamType)
| ErrorNonInteger
| ErrorNoLayer
| AssetOff (id : nat)
| AssetOn (id : nat)
| AssetOnce (id : nat)
| AssetsAdd (id : nat)
| AssetsLoad (id : nat)
| LayerUpdated (layer : string) (dt : Q)
| LayerRemoveNodeAnimations (layer node : string)
| LayerAssignAnimation (layer node : string) (asset : nat)
| TriggerReset (name : string).

(** The value assigned to [stateGraphAsset]: [null], an [Asset] or an id. *)
Inductive GraphRef :=
| RefNull
| RefAsset (a : Asset)
| RefId (id : nat).

Record t := {
  _stateGraphAsset : option nat;
  _animationAssets : gmap string AssetEntry;
  _speed : Q;
  _activate : bool;
  _playing : bool;
  _rootBone : option nat;
  _stateGraph : option StateGraph;
  _layers : list Layer;
  _layerIndices : gmap string nat;
  _parameters : gmap string Param;
  _targets : gmap string nat;
  (** a [Set]: no duplicates, iterated in insertion order *)
  _consumedTriggers : list string;
  (** [system.app.assets] *)
  assets : gmap nat Asset;
  effects : list effect
}.

(** [new AnimComponent(system, entity)] *)
Definition constructor (registry : gmap nat Asset) : t :=
  {| _stateGraphAsset := None; _animationAssets := ∅; _speed := 1%Q;
     _activate := true; _playing := false; _rootBone := None;
     _stateGraph := None; _layers := []; _layerIndices := ∅;
     _parameters := ∅; _targets := ∅; _consumedTriggers := [];
     assets := registry; effects := [] |}.

Definition emit (e : effect) (c : t) : t :=
  {| _stateGraphAsset := _stateGraphAsset c;
     _animationAssets := _animationAssets c; _speed := _speed c;
     _activate := _activate c; _playing := _playing c;
     _rootBone := _rootBone c; _stateGraph := _stateGraph c;
     _layers := _layers c; _layerIndices := _layerIndices c;
     _parameters := _parameters c; _targets := _targets c;
     _consumedTriggers := _consumedTriggers c; assets := assets c;
     effects := effects c ++ [e] |}.

Definition with_parameters (ps : gmap string Param) (c : t) : t :=
  {| _stateGraphAsset := _stateGraphAsset c;
     _animationAssets := _animationAssets c; _speed := _speed c;
     _activate := _activate c; _playing := _playing c;
     _rootBone := _rootBone c; _stateGraph := _stateGraph c;
     _layers := _layers c; _layerIndices := _layerIndices c;
     _parameters := ps; _targets := _targets c;
     _consumedTriggers := _consumedTriggers c; assets := assets c;
     effects := effects c |}.

Definition with_consumed (ts : list string) (c : t) : t :=
  {| _stateGraphAsset := _stateGraphAsset c;
     _animationAssets := _animationAssets c; _speed := _speed c;
     _activate := _activate c; _playing := _playing c;
     _rootBone := _rootBone c; _stateGraph := _stateGraph c;
     _layers := _layers c; _layerIndices := _layerIndices c;
     _parameters := _parameters c; _targets := _targets c;
     _consumedTriggers := ts; assets := assets c;
     effects := effects c |}.

Definition with_layers (ls : list Layer) (c : t) : t :=
  {| _stateGraphAsset := _stateGraphAsset c;
     _animationAssets := _animationAssets c; _speed := _speed c;
     _activate := _activate c; _playing := _playing c;
     _rootBone := _rootBone c; _stateGraph := _stateGraph c;
     _layers := ls; _layerIndices := _layerIndices c;
     _parameters := _parameters c; _targets := _targets c;
     _consumedTriggers := _consumedTriggers c; assets := assets c;
     effects := effects c |}.

Definition with_manifest (m : gmap string AssetEntry) (c : t) : t :=
  {| _stateGraphAsset := _stateGraphAsset c;
     _animationAssets := m; _speed := _speed c;
     _activate := _activate c; _playing := _playing c;
     _rootBone := _rootBone c; _stateGraph := _stateGraph c;
     _layers := _layers c; _layerIndices := _layerIndices c;
     _parameters := _parameters c; _targets := _targets c;
     _consumedTriggers := _consumedTriggers c; assets := assets c;
     effects := effects c |}.

(** [Set.prototype.add] *)
Definition set_add (x : string) (s : list string) : list string :=
  if bool_decide (x ∈ s) then s else s ++ [x].

(** [findAnimationLayer(name)]: [this._layers[layerIndex] || null] *)
Definition findAnimationLayer (name : string) (c : t) : option Layer :=
  i ← _layerIndices c !! name; _layers c !! i.

(** [get baseLayer()] *)
Definition baseLayer (c : t) : option Layer := _layers c !! 0%nat.

(** [removeStateGraph()] *)
Definition removeStateGraph (c : t) : t :=
  {| _stateGraphAsset := None; _animationAssets := ∅; _speed := _speed c;
     _activate := _activate c; _playing := false;
     _rootBone := _rootBone c; _stateGraph := None;
     _layers := []; _layerIndices := ∅;
     _parameters := ∅; _targets := _targets c;
     _consumedTriggers := _consumedTriggers c; assets := assets c;
     effects := effects c |}.

(** [_addLayer({ name, states, transitions, weight, mask, blendType })] *)
Definition _addLayer (l : LayerDesc) (c : t) : t :=
  let layerIndex := length (_layers c) in
  let layer := {| layer_name := name l;
                  layer_states := state_name <$> states l;
                  layer_transitions := transitions l;
                  layer_weight := weight l; layer_mask := mask l;
                  layer_blendType := blendType l; layer_time := 0%Q |} in
  {| _stateGraphAsset := _stateGraphAsset c;
     _animationAssets := _animationAssets c; _speed := _speed c;
     _activate := _activate c; _playing := _playing c;
     _rootBone := _rootBone c; _stateGraph := _stateGraph c;
     _layers := _layers c ++ [layer];
     _layerIndices := <[name l := layerIndex]> (_layerIndices c);
     _parameters := _parameters c; _targets := _targets c;
     _consumedTriggers := _consumedTriggers c; assets := assets c;
     effects := effects c |}.

(** [removeNodeAnimations(nodeName, layerName)] *)
Definition removeNodeAnimations (nodeName layerName : string) (c : t) : t :=
  let layer := if bool_decide (layerName = "") then baseLayer c
               else findAnimationLayer layerName c in
  match layer with
  | None => emit ErrorNoLayer c
  | Some l => emit (LayerRemoveNodeAnimations (layer_name l) nodeName) c
  end.

(** [onAnimationAssetLoaded(layerName, stateName, asset)] *)
Definition onAnimationAssetLoaded (layerName stateName : string)
    (assetId : nat) (c : t) : result t :=
  match findAnimationLayer layerName c with
  | None => Throw TypeError
  | Some l =>
      Ok (emit (LayerAssignAnimation (layer_name l) stateName assetId) c)
  end.

(** [addLayer(name, weight, mask, blendType)]: the layer returned, and the
    component.  [_addLayer] returns [this._layers[layerIndex]]. *)
Definition addLayer (name : string) (weight : Q) (mask : option (list string))
    (blendType : string) (c : t) : option Layer * t :=
  match findAnimationLayer name c with
  | Some layer => (Some layer, c)
  | None =>
      let states := [{| state_name := "START"; state_speed := 1%Q |}] in
      let transitions := [] in
      let c' := _addLayer {| name := name; states := states;
                             transitions := transitions; weight := weight;
                             mask := mask; blendType := blendType |} c in
      (_layers c' !! length (_layers c), c')
  end.

Section Collaborators.

(** [ANIM_CONTROL_STATES] is imported from anim/controller/constants.js,
    which is not among the sources: the reserved state names. *)
Variable ANIM_CONTROL_STATES : list string.

(** Modelled from the spec: what a layer's controller does with the shared
    parameter map during one update, namely read it and name the triggers
    its transitions consumed (they go to the shared consumed-triggers set). *)
Variable layer_consumes : Layer → Q → gmap string Param → list string.

(** [ANIM_CONTROL_STATES.indexOf(stateName) !== -1] *)
Definition is_control_state (stateName : string) : bool :=
  bool_decide (stateName ∈ ANIM_CONTROL_STATES).

(** The body of the inner loop of [loadAnimationAssets]. *)
Definition loadAnimationAsset (layer : Layer) (c : result t)
    (stateName : string) : result t :=
  c ←! c ;;
  if is_control_state stateName then Ok c
  else
    match _animationAssets c !! (layer_name layer +:+ ":" +:+ stateName) with
    | Some {| asset := Some (S n) |} =>
        let assetId := S n in
        match assets c !! assetId with
        | None => Ok c
        | Some a =>
            match resource a with
            | Some _ =>
                onAnimationAssetLoaded (layer_name layer) stateName assetId c
            | None => Ok (emit (AssetsLoad assetId) (emit (AssetOnce assetId) c))
            end
        end
    | _ => Ok (removeNodeAnimations stateName (layer_name layer) c)
    end.

(** [loadAnimationAssets()] *)
Definition loadAnimationAssets (c : t) : result t :=
  foldl (λ acc layer, foldl (loadAnimationAsset layer) acc (layer_states layer))
        (Ok c) (_layers c).

(** The body of the inner loop of [setupAnimationAssets]. *)
Definition setupAnimationAsset (layer : Layer) (c : t) (stateName : string)
    : t :=
  if is_control_state stateName then c
  else
    let stateKey := layer_name layer +:+ ":" +:+ stateName in
    match _animationAssets c !! stateKey with
    | Some _ => c
    | None =>
        with_manifest (<[stateKey := {| asset := None |}]> (_animationAssets c)) c
    end.

(** [setupAnimationAssets()] *)
Definition setupAnimationAssets (c : t) : result t :=
  loadAnimationAssets
    (foldl (λ acc layer, foldl (setupAnimationAsset layer) acc (layer_states layer))
           c (_layers c)).

(** [loadStateGraph(stateGraph)] *)
Definition loadStateGraph (stateGraph : StateGraph) (c : t) : result t :=
  let c :=
    {| _stateGraphAsset := _stateGraphAsset c;
       _animationAssets := _animationAssets c; _speed := _speed c;
       _activate := _activate c; _playing := _playing c;
       _rootBone := _rootBone c; _stateGraph := Some stateGraph;
       _layers := []; _layerIndices := _layerIndices c;
       _parameters :=
         (λ p, {| param_type := param_type p; param_value := param_value p |})
           <$> parameters stateGraph;
       _targets := _targets c;
       _consumedTriggers := _consumedTriggers c; assets := assets c;
       effects := effects c |} in
  setupAnimationAssets (foldl (λ acc layer, _addLayer layer acc) c (layers stateGraph)).

Definition with_graph_asset (id : option nat) (c : t) : t :=
  {| _stateGraphAsset := id;
     _animationAssets := _animationAssets c; _speed := _speed c;
     _activate := _activate c; _playing := _playing c;
     _rootBone := _rootBone c; _stateGraph := _stateGraph c;
     _layers := _layers c; _layerIndices := _layerIndices c;
     _parameters := _parameters c; _targets := _targets c;
     _consumedTriggers := _consumedTriggers c; assets := assets c;
     effects := effects c |}.

Definition with_assets (reg : gmap nat Asset) (c : t) : t :=
  {| _stateGraphAsset := _stateGraphAsset c;
     _animationAssets := _animationAssets c; _speed := _speed c;
     _activate := _activate c; _playing := _playing c;
     _rootBone := _rootBone c; _stateGraph := _stateGraph c;
     _layers := _layers c; _layerIndices := _layerIndices c;
     _parameters := _parameters c; _targets := _targets c;
     _consumedTriggers := _consumedTriggers c; assets := reg;
     effects := effects c |}.

(** The part of the [stateGraphAsset] setter after the [null] test and the
    unsubscription: resolve the asset, then bind or wait for its load. *)
Definition bindStateGraphAsset (_id : nat) (_asset : option Asset) (c : t)
    : result t :=
  match _asset with
  | None => Ok c
  | Some a =>
      if bool_decide (_stateGraphAsset c = Some _id) then Ok c
      else
        match resource a with
        | Some (GraphResource g) =>
            c ←! loadStateGraph g c ;;
            Ok (with_graph_asset (Some _id) (emit (AssetOn _id) c))
        | Some (TrackResource _) => Throw TypeError
        | None =>
            Ok (with_graph_asset (Some _id)
                  (emit (AssetsLoad _id) (emit (AssetOn _id) (emit (AssetOnce _id) c))))
        end
  end.

(** [set stateGraphAsset(value)] *)
Definition set_stateGraphAsset (v : GraphRef) (c : t) : result t :=
  match v with
  | RefNull => Ok (removeStateGraph c)
  | _ =>
      c ←! match _stateGraphAsset c with
           | Some (S n) =>
               match assets c !! S n with
               | None => Throw TypeError
               | Some _ => Ok (emit (AssetOff (S n)) c)
               end
           | _ => Ok c
           end ;;
      match v with
      | RefAsset a =>
          match assets c !! asset_id a with
          | Some a' => bindStateGraphAsset (asset_id a) (Some a') c
          | None =>
              bindStateGraphAsset (asset_id a) (Some a)
                (with_assets (<[asset_id a := a]> (assets c))
                   (emit (AssetsAdd (asset_id a)) c))
          end
      | RefId id => bindStateGraphAsset id (assets c !! id) c
      | RefNull => Ok c
      end
  end.

(** [getParameterValue(name, type)]: the value returned, if any. *)
Definition getParameterValue (name : string) (type : ParamType) (c : t)
    : option value * t :=
  match _parameters c !! name with
  | Some param =>
      if bool_decide (param_type param = type) then (Some (param_value param), c)
      else (None, emit (LogCannotGet name type) c)
  | None => (None, emit (LogCannotGet name type) c)
  end.

(** [setParameterValue(name, type, value)] *)
Definition setParameterValue (name : string) (type : ParamType) (v : value)
    (c : t) : t :=
  match _parameters c !! name with
  | Some param =>
      if bool_decide (param_type param = type) then
        with_parameters
          (<[name := {| param_type := param_type param; param_value := v |}]>
             (_parameters c)) c
      else emit (LogCannotSet name type) c
  | None => emit (LogCannotSet name type) c
  end.

Definition getFloat (name : string) := getParameterValue name ANIM_PARAMETER_FLOAT.
Definition setFloat (name : string) (v : value) :=
  setParameterValue name ANIM_PARAMETER_FLOAT v.

Definition getInteger (name : string) := getParameterValue name ANIM_PARAMETER_INTEGER.
Definition setInteger (name : string) (v : value) (c : t) : t :=
  if is_integer v then setParameterValue name ANIM_PARAMETER_INTEGER v c
  else emit ErrorNonInteger c.

Definition getBoolean (name : string) := getParameterValue name ANIM_PARAMETER_BOOLEAN.
Definition setBoolean (name : string) (v : value) :=
  setParameterValue name ANIM_PARAMETER_BOOLEAN (VBool (truthy v)).

Definition getTrigger (name : string) := getParameterValue name ANIM_PARAMETER_TRIGGER.

(** [setTrigger(name, singleFrame = false)] *)
Definition setTrigger (name : string) (singleFrame : bool) (c : t) : t :=
  let c := setParameterValue name ANIM_PARAMETER_TRIGGER (VBool true) c in
  if singleFrame then with_consumed (set_add name (_consumedTriggers c)) c
  else c.

(** [resetTrigger(name)] *)
Definition resetTrigger (name : string) :=
  setParameterValue name ANIM_PARAMETER_TRIGGER (VBool false).

(** The first loop of [update]: [this.layers[i].update(dt * this.speed)],
    layer after layer. *)
Fixpoint update_layers (dt : Q) (ls : list Layer) (c : t) : list Layer * t :=
  match ls with
  | [] => ([], c)
  | l :: rest =>
      let consumed := layer_consumes l dt (_parameters c) in
      let c1 :=
        with_consumed (foldl (λ s x, set_add x s) (_consumedTriggers c) consumed)
          (emit (LayerUpdated (layer_name l) dt) c) in
      let '(rest', c2) := update_layers dt rest c1 in
      ({| layer_name := layer_name l; layer_states := layer_states l;
          layer_transitions := layer_transitions l;
          layer_weight := layer_weight l; layer_mask := layer_mask l;
          layer_blendType := layer_blendType l;
          layer_time := (layer_time l + dt)%Q |} :: rest', c2)
  end.

(** The [forEach] of [update]: [this.parameters[trigger].value = false] for
    each consumed trigger, oldest first; the write throws when the map has
    no such parameter, and the state stays as it was at that point. *)
Fixpoint reset_consumed (ts : list string) (c : t) : t * option error :=
  match ts with
  | [] => (c, None)
  | trigger :: rest =>
      match _parameters c !! trigger with
      | None => (c, Some TypeError)
      | Some param =>
          reset_consumed rest
            (with_parameters
               (<[trigger := {| param_type := param_type param;
                                param_value := VBool false |}]> (_parameters c))
               (emit (TriggerReset trigger) c))
      end
  end.

(** [update(dt)]: the state the call leaves and what it threw, if anything. *)
Definition update (dt : Q) (c : t) : t * option error :=
  let '(ls, c1) := update_layers (dt * _speed c)%Q (_layers c) c in
  let c1 := with_layers ls c1 in
  match reset_consumed (_consumedTriggers c1) c1 with
  | (c2, None) => (with_consumed [] c2, None)
  | (c2, Some e) => (c2, Some e)
  end.

(** [resetStateGraph()] *)
Definition resetStateGraph (c : t) : result t :=
  match _stateGraphAsset c with
  | Some (S n) =>
      match assets c !! S n with
      | None => Throw TypeError
      | Some a =>
          match resource a with
          | Some (GraphResource g) => loadStateGraph g c
          | _ => Throw TypeError
          end
      end
  | _ => Ok (removeStateGraph c)
  end.

(** [set animationAssets(value)] *)
Definition set_animationAssets (value : gmap string AssetEntry) (c : t)
    : result t :=
  loadAnimationAssets (with_manifest value c).

End Collaborators.

End Anim.

(** ** The [model] setter of [ModelComponent] (model/component.js) *)

Module Model.

Record MeshInstance := {
  castShadow : bool;
  receiveShadow : bool;
  isStatic : bool;
  customAabb : option nat
}.

(** A [Model] instance.  Instances live in a heap and are named by their
    address, so that two components can hold the same one. *)
Record Instance := {
  _immutable : bool;
  meshInstances : list MeshInstance;
  graph : nat;
  _entity : option string;
  destroyed : bool
}.

(** What the setter reads of the entity: its [enabled] flag, whether it has
    a legacy [animation] component, and its [anim] component's [playing]
    flag if it has one. *)
Record Entity := {
  guid : string;
  entity_enabled : bool;
  animation : bool;
  anim : option bool
}.

Record t := {
  entity : Entity;
  enabled : bool;
  _type : string;
  _model : option nat;
  _castShadows : bool;
  _receiveShadows : bool;
  _isStatic : bool;
  _lightmapped : bool;
  _customAabb : option nat;
  _layers : list nat;
  _clonedModel : bool
}.

Inductive effect :=
| ErrorMultipleOwners
| LayerRemoveMeshInstances (layer model : nat)
| LayerAddMeshInstances (layer model : nat)
| EntityRemoveChild (owner : string) (node : nat)
| EntityAddChild (owner : string) (node : nat)
| ModelDestroy (model : nat)
| AnimationSetModel (owner : string) (model : nat)
| AnimRebind (owner : string)
| AnimResetStateGraph (owner : string)
| SetMapping (owner : string)
| UnsetMaterialEvents (owner : string).

(** Everything the setter can touch: the model instances, the model
    components by the guid of their entity, the ids of the scene's layers. *)
Record World := {
  models : gmap nat Instance;
  components : gmap string t;
  scene_layers : list nat;
  effects : list effect
}.

Definition emit (es : list effect) (w : World) : World :=
  {| models := models w; components := components w;
     scene_layers := scene_layers w; effects := effects w ++ es |}.

Definition update_model (r : nat) (f : Instance → Instance) (w : World) : World :=
  {| models := alter f r (models w); components := components w;
     scene_layers := scene_layers w; effects := effects w |}.

Definition update_component (who : string) (f : t → t) (w : World) : World :=
  {| models := models w; components := alter f who (components w);
     scene_layers := scene_layers w; effects := effects w |}.

(** The layers of [this._layers] that [getLayerById] finds. *)
Definition found_layers (c : t) (w : World) : list nat :=
  filter (λ id, id ∈ scene_layers w) (_layers c).

(** [removeModelFromLayers()] and [addModelToLayers()] *)
Definition removeModelFromLayers (c : t) (r : nat) (w : World) : World :=
  emit ((λ id, LayerRemoveMeshInstances id r) <$> found_layers c w) w.

Definition addModelToLayers (c : t) (r : nat) (w : World) : World :=
  emit ((λ id, LayerAddMeshInstances id r) <$> found_layers c w) w.

(** The block of the setter that lets the previous model go. *)
Definition release (who : string) (c : t) (old : nat) (w : World) : World :=
  let w := update_model old (λ m,
             {| _immutable := false; meshInstances := meshInstances m;
                graph := graph m; _entity := _entity m;
                destroyed := destroyed m |}) w in
  let w := removeModelFromLayers c old w in
  let node := default 0%nat (graph <$> models w !! old) in
  let w := emit [EntityRemoveChild who node] w in
  let w := update_model old (λ m,
             {| _immutable := _immutable m; meshInstances := meshInstances m;
                graph := graph m; _entity := None;
                destroyed := destroyed m |}) w in
  if _clonedModel c then
    let w := update_model old (λ m,
               {| _immutable := _immutable m; meshInstances := meshInstances m;
                  graph := graph m; _entity := _entity m;
                  destroyed := true |}) w in
    update_component who (λ c,
      {| entity := entity c; enabled := enabled c; _type := _type c;
         _model := _model c; _castShadows := _castShadows c;
         _receiveShadows := _receiveShadows c; _isStatic := _isStatic c;
         _lightmapped := _lightmapped c; _customAabb := _customAabb c;
         _layers := _layers c; _clonedModel := false |})
      (emit [ModelDestroy old] w)
  else w.

(** The block of the setter that takes the new model in. *)
Definition adopt (who : string) (c : t) (r : nat) (w : World) : World :=
  let w := update_model r (λ m,
             {| _immutable := true;
                meshInstances :=
                  (λ mi, {| castShadow := _castShadows c;
                            receiveShadow := _receiveShadows c;
                            isStatic := _isStatic c;
                            customAabb := _customAabb c |}) <$> meshInstances m;
                graph := graph m; _entity := _entity m;
                destroyed := destroyed m |}) w in
  let node := default 0%nat (graph <$> models w !! r) in
  let w := emit [EntityAddChild who node] w in
  let w := if enabled c && entity_enabled (entity c)
           then addModelToLayers c r w else w in
  let w := update_model r (λ m,
             {| _immutable := _immutable m; meshInstances := meshInstances m;
                graph := graph m; _entity := Some (guid (entity c));
                destroyed := destroyed m |}) w in
  let w := if animation (entity c) then emit [AnimationSetModel who r] w else w in
  let w := match anim (entity c) with
           | Some true => emit [AnimRebind who] w
           | Some false => emit [AnimResetStateGraph who] w
           | None => w
           end in
  if bool_decide (_type c = "asset") then emit [SetMapping who] w
  else emit [UnsetMaterialEvents who] w.

(** [set model(value)] on the component of entity [who]; [None] is [null]. *)
Definition set_model (who : string) (value : option nat) (w : World)
    : result World :=
  match components w !! who with
  | None => Throw TypeError
  | Some c =>
      if bool_decide (_model c = value) then Ok w
      else if default false (r ← value; _immutable <$> models w !! r)
      then Ok (emit [ErrorMultipleOwners] w)
      else
        let w := match _model c with
                 | Some old => release who c old w
                 | None => w
                 end in
        let w := update_component who (λ c,
                   {| entity := entity c; enabled := enabled c;
                      _type := _type c; _model := value;
                      _castShadows := _castShadows c;
                      _receiveShadows := _receiveShadows c;
                      _isStatic := _isStatic c;
                      _lightmapped := _lightmapped c;
                      _customAabb := _customAabb c;
                      _layers := _layers c;
                      _clonedModel := _clonedModel c |}) w in
        match value with
        | Some r => Ok (adopt who c r w)
        | None => Ok w
        end
  end.

(** [get model()] *)
Definition get_model (who : string) (w : World) : option nat :=
  c ← components w !! who; _model c.

End Model.

(** ** The layout calculator (layout-group/layout-calculator.js) *)

Module Layout.

Open Scope Q_scope.

(** A number that may be [Number.POSITIVE_INFINITY]: the maxima. *)
Inductive xnum :=
| Fin (q : Q)
| PosInf.

(** A property as stored on an element or a layout-child component. *)
Inductive raw (A : Type) :=
| Undefined
| Null
| Number (x : A).
Arguments Undefined {A}.
Arguments Null {A}.
Arguments Number {A} x.

(** What [getProperty] can return: a number or [null]. *)
Inductive resolved (A : Type) :=
| RNull
| RNumber (x : A).
Arguments RNull {A}.
Arguments RNumber {A} x.

(** ToNumber: [null] counts as 0. *)
Definition to_number (r : resolved Q) : Q :=
  match r with RNull => 0 | RNumber x => x end.

Definition to_xnumber (r : resolved xnum) : xnum :=
  match r with RNull => Fin 0 | RNumber x => x end.

(** [Math.max(x, q)] and [Math.min(q, x)] with one operand possibly infinite. *)
Definition xmax (x : xnum) (q : Q) : xnum :=
  match x with
  | Fin m => Fin (Qmax m q)
  | PosInf => PosInf
  end.

Definition xmin (q : Q) (x : xnum) : Q :=
  match x with
  | Fin m => Qmin q m
  | PosInf => q
  end.

(** [q <= x] *)
Definition xle (q : Q) (x : xnum) : Prop :=
  match x with
  | Fin m => q <= m
  | PosInf => True
  end.

(** The sign of [a - b] as [sort] reads it; Infinity - Infinity is NaN,
    which [sort] takes for 0. *)
Definition xcompare (a b : xnum) : comparison :=
  match a, b with
  | Fin x, Fin y => x ?= y
  | Fin _, PosInf => Lt
  | PosInf, Fin _ => Gt
  | PosInf, PosInf => Eq
  end.

(** [a > b] on numbers *)
Definition Qgtb (a b : Q) : bool := negb (Qle_bool a b).

Record Vec2 := { x : Q; y : Q }.
Record Vec4 := { x4 : Q; y4 : Q; z4 : Q; w4 : Q }.

(** The size-related properties, as an element or a layout-child component
    stores them. *)
Record Props := {
  p_minWidth : raw Q;
  p_minHeight : raw Q;
  p_maxWidth : raw xnum;
  p_maxHeight : raw xnum;
  p_width : raw Q;
  p_height : raw Q;
  p_fitWidthProportion : raw Q;
  p_fitHeightProportion : raw Q
}.

(** [element.entity.layoutchild] *)
Record LayoutChildComponent := {
  lc_enabled : bool;
  excludeFromLayout : bool;
  lc_props : Props
}.

Record Element := {
  element_id : nat;
  layoutchild : option LayoutChildComponent;
  el_props : Props;
  pivot : Vec2;
  anchor : Vec4
}.

(** A property name: where to read it, and its entry of
    [PROPERTY_DEFAULTS]. *)
Record property (A : Type) := {
  read : Props → raw A;
  PROPERTY_DEFAULT : resolved A
}.
Arguments read {A} p.
Arguments PROPERTY_DEFAULT {A} p.

Definition prop_minWidth : property Q :=
  {| read := p_minWidth; PROPERTY_DEFAULT := RNumber 0 |}.
Definition prop_minHeight : property Q :=
  {| read := p_minHeight; PROPERTY_DEFAULT := RNumber 0 |}.
Definition prop_maxWidth : property xnum :=
  {| read := p_maxWidth; PROPERTY_DEFAULT := RNumber PosInf |}.
Definition prop_maxHeight : property xnum :=
  {| read := p_maxHeight; PROPERTY_DEFAULT := RNumber PosInf |}.
Definition prop_width : property Q :=
  {| read := p_width; PROPERTY_DEFAULT := RNull |}.
Definition prop_height : property Q :=
  {| read := p_height; PROPERTY_DEFAULT := RNull |}.
Definition prop_fitWidthProportion : property Q :=
  {| read := p_fitWidthProportion; PROPERTY_DEFAULT := RNumber 0 |}.
Definition prop_fitHeightProportion : property Q :=
  {| read := p_fitHeightProportion; PROPERTY_DEFAULT := RNumber 0 |}.

(** [getProperty(element, propertyName)] *)
Definition getProperty {A} (element : Element) (propertyName : property A)
    : resolved A :=
  let own :=
    match read propertyName (el_props element) with
    | Undefined => PROPERTY_DEFAULT propertyName
    | Null => RNull
    | Number v => RNumber v
    end in
  match layoutchild element with
  | Some layoutChildComponent =>
      if lc_enabled layoutChildComponent then
        match read propertyName (lc_props layoutChildComponent) with
        | Number v => RNumber v
        | _ => own
        end
      else own
  | None => own
  end.

(** [clamp(value, min, max)] *)
Definition clamp (value min : Q) (max : xnum) : Q :=
  xmin (Qmax value min) max.

(** One record of [getElementSizeProperties]. *)
Record Size := {
  minWidth : Q;
  minHeight : Q;
  maxWidth : xnum;
  maxHeight : xnum;
  width : Q;
  height : Q;
  fitWidthProportion : resolved Q;
  fitHeightProportion : resolved Q
}.

(** The body of the loop of [getElementSizeProperties]. *)
Definition elementSizeProperties (element : Element) : Size :=
  let minWidth := Qmax (to_number (getProperty element prop_minWidth)) 0 in
  let minHeight := Qmax (to_number (getProperty element prop_minHeight)) 0 in
  let maxWidth := xmax (to_xnumber (getProperty element prop_maxWidth)) minWidth in
  let maxHeight := xmax (to_xnumber (getProperty element prop_maxHeight)) minHeight in
  let width := clamp (to_number (getProperty element prop_width)) minWidth maxWidth in
  let height := clamp (to_number (getProperty element prop_height)) minHeight maxHeight in
  {| minWidth := minWidth; minHeight := minHeight;
     maxWidth := maxWidth; maxHeight := maxHeight;
     width := width; height := height;
     fitWidthProportion := getProperty element prop_fitWidthProportion;
     fitHeightProportion := getProperty element prop_fitHeightProportion |}.

(** [getElementSizeProperties(elements)] *)
Definition getElementSizeProperties (elements : list Element) : list Size :=
  elementSizeProperties <$> elements.

(** [shouldIncludeInLayout(element)] *)
Definition shouldIncludeInLayout (element : Element) : bool :=
  match layoutchild element with
  | None => true
  | Some layoutChildComponent =>
      negb (lc_enabled layoutChildComponent)
      || negb (excludeFromLayout layoutChildComponent)
  end.

(** Orientations and fitting modes.  The constants come from
    scene/constants.js and layout-group/constants.js, which are not among
    the sources; an option may hold a value that is none of them. *)
Inductive Orientation :=
| ORIENTATION_HORIZONTAL
| ORIENTATION_VERTICAL
| OtherOrientation (n : nat).

Inductive Fitting :=
| FITTING_NONE
| FITTING_STRETCH
| FITTING_SHRINK
| FITTING_BOTH
| OtherFitting (n : nat).

Record Options := {
  orientation : Orientation;
  wrap : bool;
  widthFitting : Fitting;
  heightFitting : Fitting;
  spacing : Vec2;
  containerSize : Vec2;
  padding : Vec4;
  alignment : Vec2;
  reverseX : bool;
  reverseY : bool
}.

(** An entry of [AXIS_MAPPINGS]: how to reach the properties of one axis. *)
Record Axis := {
  axis : Vec2 → Q;
  size : Size → Q;
  with_size : Q → Size → Size;
  minSize : Size → Q;
  maxSize : Size → xnum;
  fitting : Options → Fitting;
  fittingProportion : Size → resolved Q
}.

Definition AXIS_X : Axis :=
  {| axis := x; size := width;
     with_size := λ v s,
       {| minWidth := minWidth s; minHeight := minHeight s;
          maxWidth := maxWidth s; maxHeight := maxHeight s;
          width := v; height := height s;
          fitWidthProportion := fitWidthProportion s;
          fitHeightProportion := fitHeightProportion s |};
     minSize := minWidth; maxSize := maxWidth;
     fitting := widthFitting; fittingProportion := fitWidthProportion |}.

Definition AXIS_Y : Axis :=
  {| axis := y; size := height;
     with_size := λ v s,
       {| minWidth := minWidth s; minHeight := minHeight s;
          maxWidth := maxWidth s; maxHeight := maxHeight s;
          width := width s; height := v;
          fitWidthProportion := fitWidthProportion s;
          fitHeightProportion := fitHeightProportion s |};
     minSize := minHeight; maxSize := maxHeight;
     fitting := heightFitting; fittingProportion := fitHeightProportion |}.

Definition AXIS_MAPPINGS (o : Orientation) : option Axis :=
  match o with
  | ORIENTATION_HORIZONTAL => Some AXIS_X
  | ORIENTATION_VERTICAL => Some AXIS_Y
  | OtherOrientation _ => None
  end.

Definition OPPOSITE_ORIENTATION (o : Orientation) : Orientation :=
  match o with
  | ORIENTATION_HORIZONTAL => ORIENTATION_VERTICAL
  | ORIENTATION_VERTICAL => ORIENTATION_HORIZONTAL
  | other => other
  end.

Inductive FITTING_ACTION :=
| NONE
| APPLY_STRETCHING
| APPLY_SHRINKING.

(** The first lines of [calculateAll]: the space inside the padding. *)
Definition availableSpace (options : Options) : Vec2 :=
  {| x := x (containerSize options) - x4 (padding options) - z4 (padding options);
     y := y (containerSize options) - y4 (padding options) - w4 (padding options) |}.

(** [items.reduce((accumulator, current) => accumulator + current[p], 0)] *)
Definition sumValues {A} (get : A → Q) (items : list A) : Q :=
  foldl (λ accumulator current, accumulator + get current) 0 items.

(** A stable sort, as [Array.prototype.sort] is: [v] goes in front of the
    first element it does not compare greater than. *)
Fixpoint insert_by {A} (cmp : A → A → comparison) (v : A) (l : list A)
    : list A :=
  match l with
  | [] => [v]
  | h :: t =>
      match cmp v h with
      | Gt => h :: insert_by cmp v t
      | _ => v :: h :: t
      end
  end.

Fixpoint sort_by {A} (cmp : A → A → comparison) (l : list A) : list A :=
  match l with
  | [] => []
  | v :: t => insert_by cmp v (sort_by cmp t)
  end.

(** [getTraversalOrder(items, orderBy, descending)]: the indices of the
    items, sorted by the comparison [cmp] of the items they name. *)
Definition getTraversalOrder {A} (cmp : A → A → comparison) (items : list A)
    : list nat :=
  fst <$> sort_by (λ p q, cmp (snd p) (snd q)) (imap (λ i item, (i, item)) items).

(** [getNormalizedValues(items, propertyName)] *)
Definition getNormalizedValues {A} (get : A → Q) (items : list A) : list Q :=
  let sum := sumValues get items in
  let numItems := inject_Z (Z.of_nat (length items)) in
  if Qeq_bool sum 0 then (λ _, 1 / numItems) <$> items
  else (λ item, get item / sum) <$> items.

(** [invertNormalizedValues(values)] *)
Definition invertNormalizedValues (values : list Q) : list Q :=
  match values with
  | [_] => [1]
  | _ =>
      let numValues := inject_Z (Z.of_nat (length values)) in
      (λ v, (1 - v) / (numValues - 1)) <$> values
  end.

(** [createSumArray(values, order)]: for each index of [order], the sum of
    the values from its place in [order] to the end.  The array is sparse
    in the source; here it is a map from index to sum. *)
Fixpoint createSumArray (values : list Q) (order : list nat) : gmap nat Q :=
  match order with
  | [] => ∅
  | i :: rest =>
      let sumArray := createSumArray values rest in
      let v := default 0 (values !! i) in
      match rest with
      | [] => <[i := v]> sumArray
      | j :: _ => <[i := default 0 (sumArray !! j) + v]> sumArray
      end
  end.

(** [calculateAdjustment(index, remainingAdjustment, fittingProportions,
    fittingProportionSums)] *)
Definition calculateAdjustment (index : nat) (remainingAdjustment : Q)
    (fittingProportions : list Q) (fittingProportionSums : gmap nat Q)
    : result Q :=
  match fittingProportions !! index, fittingProportionSums !! index with
  | Some proportion, Some sumOfRemainingProportions =>
      if Qgtb (1 # 100000) (Qabs proportion)
         && Qgtb (1 # 100000) (Qabs sumOfRemainingProportions)
      then Ok remainingAdjustment
      else if Qeq_bool sumOfRemainingProportions 0 then Throw NonFinite
      else Ok (remainingAdjustment * proportion / sumOfRemainingProportions)
  | _, _ => Throw NonFinite
  end.

(** [determineFittingAction(fittingMode, currentSize, availableSize)] *)
Definition determineFittingAction (fittingMode : Fitting)
    (currentSize availableSize : Q) : result FITTING_ACTION :=
  match fittingMode with
  | FITTING_NONE => Ok NONE
  | FITTING_STRETCH =>
      if Qgtb availableSize currentSize then Ok APPLY_STRETCHING else Ok NONE
  | FITTING_SHRINK =>
      if Qle_bool availableSize currentSize then Ok APPLY_SHRINKING else Ok NONE
  | FITTING_BOTH =>
      if Qgtb availableSize currentSize then Ok APPLY_STRETCHING
      else if Qle_bool availableSize currentSize then Ok APPLY_SHRINKING
      else Ok NONE
  | OtherFitting _ => Throw ConfigError
  end.

(** The functions [createCalculator(orientation)] closes over [a] (the
    primary axis) and [options]. *)
Section Calculator.

Variable a : Axis.
Variable options : Options.

Definition has_elements {A} (line : list A) : bool :=
  match line with [] => false | _ => true end.

(** The loop of [splitLines]: [lines] are the lines already closed,
    [current] is the last line, still open. *)
Fixpoint splitLines_loop (allowOverrun : bool) (items : list (Element * Size))
    (lines : list (list Element)) (current : list Element) (runningSize : Q)
    : list (list Element) :=
  match items with
  | [] => lines ++ [current]
  | (element, sizes_i) :: rest =>
      let runningSize :=
        if has_elements current then runningSize + axis a (spacing options)
        else runningSize in
      let idealElementSize := size a sizes_i in
      let runningSize := runningSize + idealElementSize in
      let '(lines, current, runningSize) :=
        if negb allowOverrun
           && Qgtb runningSize (axis a (availableSpace options))
           && has_elements current
        then (lines ++ [current], [], idealElementSize)
        else (lines, current, runningSize) in
      let current := current ++ [element] in
      if allowOverrun
         && Qgtb runningSize (axis a (availableSpace options))
         && has_elements rest
      then splitLines_loop allowOverrun rest (lines ++ [current]) [] 0
      else splitLines_loop allowOverrun rest lines current runningSize
  end.

(** [splitLines(allElements)] *)
Definition splitLines (allElements : list Element) : list (list Element) :=
  if negb (wrap options) then [allElements]
  else
    let sizes := getElementSizeProperties allElements in
    let allowOverrun :=
      match fitting a options with FITTING_SHRINK => true | _ => false end in
    splitLines_loop allowOverrun (zip allElements sizes) [] [] 0.

(** [reverseLinesIfRequired(lines)] *)
Definition reverseLinesIfRequired (lines : list (list Element))
    : list (list Element) :=
  let reverseAxisA :=
    match orientation options with
    | ORIENTATION_HORIZONTAL => reverseX options
    | ORIENTATION_VERTICAL => reverseY options
    | _ => false
    end in
  let reverseAxisB :=
    match orientation options with
    | ORIENTATION_HORIZONTAL => reverseY options
    | ORIENTATION_VERTICAL => reverseX options
    | _ => false
    end in
  let lines := if reverseAxisA then reverse <$> lines else lines in
  if reverseAxisB then reverse lines else lines.

(** [calculateTotalSpace(sizes, axis)] *)
Definition calculateTotalSpace (sizes : list Size) : Q :=
  let totalSizes := sumValues (size a) sizes in
  let totalSpacing :=
    inject_Z (Z.of_nat (length sizes) - 1) * axis a (spacing options) in
  totalSizes + totalSpacing.

(** The loop of [stretchSizesToFitContainer] over the traversal order. *)
Fixpoint stretch_loop (fittingProportions : list Q)
    (fittingProportionSums : gmap nat Q) (order : list nat)
    (sizesThisLine : list Size) (remainingUndershoot : Q)
    : result (list Size) :=
  match order with
  | [] => Ok sizesThisLine
  | index :: rest =>
      match sizesThisLine !! index with
      | None => Throw TypeError
      | Some sizes_index =>
          targetIncrease ←! calculateAdjustment index remainingUndershoot
                              fittingProportions fittingProportionSums ;;
          let targetSize := size a sizes_index + targetIncrease in
          let actualSize := xmin targetSize (maxSize a sizes_index) in
          let sizesThisLine :=
            <[index := with_size a actualSize sizes_index]> sizesThisLine in
          let actualIncrease := Qmax (targetSize - actualSize) 0 in
          let appliedIncrease := targetIncrease - actualIncrease in
          stretch_loop fittingProportions fittingProportionSums rest
            sizesThisLine (remainingUndershoot - appliedIncrease)
      end
  end.

(** [stretchSizesToFitContainer(sizesThisLine, idealRequiredSpace, axis)] *)
Definition stretchSizesToFitContainer (sizesThisLine : list Size)
    (idealRequiredSpace : Q) : result (list Size) :=
  let ascendingMaxSizeOrder :=
    getTraversalOrder (λ s1 s2, xcompare (maxSize a s1) (maxSize a s2))
      sizesThisLine in
  let fittingProportions :=
    getNormalizedValues (λ s, to_number (fittingProportion a s)) sizesThisLine in
  let fittingProportionSums :=
    createSumArray fittingProportions ascendingMaxSizeOrder in
  let remainingUndershoot :=
    axis a (availableSpace options) - idealRequiredSpace in
  stretch_loop fittingProportions fittingProportionSums ascendingMaxSizeOrder
    sizesThisLine remainingUndershoot.

(** The loop of [shrinkSizesToFitContainer]. *)
Fixpoint shrink_loop (inverseFittingProportions : list Q)
    (inverseFittingProportionSums : gmap nat Q) (order : list nat)
    (sizesThisLine : list Size) (remainingOvershoot : Q)
    : result (list Size) :=
  match order with
  | [] => Ok sizesThisLine
  | index :: rest =>
      match sizesThisLine !! index with
      | None => Throw TypeError
      | Some sizes_index =>
          targetReduction ←! calculateAdjustment index remainingOvershoot
                               inverseFittingProportions
                               inverseFittingProportionSums ;;
          let targetSize := size a sizes_index - targetReduction in
          let actualSize := Qmax targetSize (minSize a sizes_index) in
          let sizesThisLine :=
            <[index := with_size a actualSize sizes_index]> sizesThisLine in
          let actualReduction := Qmax (actualSize - targetSize) 0 in
          let appliedReduction := targetReduction - actualReduction in
          shrink_loop inverseFittingProportions inverseFittingProportionSums
            rest sizesThisLine (remainingOvershoot - appliedReduction)
      end
  end.

(** [shrinkSizesToFitContainer(sizesThisLine, idealRequiredSpace, axis)] *)
Definition shrinkSizesToFitContainer (sizesThisLine : list Size)
    (idealRequiredSpace : Q) : result (list Size) :=
  let descendingMinSizeOrder :=
    getTraversalOrder (λ s1 s2, minSize a s2 ?= minSize a s1) sizesThisLine in
  let fittingProportions :=
    getNormalizedValues (λ s, to_number (fittingProportion a s)) sizesThisLine in
  let inverseFittingProportions := invertNormalizedValues fittingProportions in
  let inverseFittingProportionSums :=
    createSumArray inverseFittingProportions descendingMinSizeOrder in
  let remainingOvershoot :=
    idealRequiredSpace - axis a (availableSpace options) in
  shrink_loop inverseFittingProportions inverseFittingProportionSums
    descendingMinSizeOrder sizesThisLine remainingOvershoot.

(** The body of the loop of [calculateSizesOnAxisA]: the sizes of one line. *)
Definition calculateLineSizesOnAxisA (line : list Element)
    : result (list Size) :=
  let sizesThisLine := getElementSizeProperties line in
  let idealRequiredSpace := calculateTotalSpace sizesThisLine in
  fittingAction ←! determineFittingAction (fitting a options)
                     idealRequiredSpace (axis a (availableSpace options)) ;;
  match fittingAction with
  | APPLY_STRETCHING =>
      stretchSizesToFitContainer sizesThisLine idealRequiredSpace
  | APPLY_SHRINKING =>
      shrinkSizesToFitContainer sizesThisLine idealRequiredSpace
  | NONE => Ok sizesThisLine
  end.

(** [calculateSizesOnAxisA(lines)] *)
Definition calculateSizesOnAxisA (lines : list (list Element))
    : result (list (list Size)) :=
  foldl (λ sizesAllLines line,
           sizesAllLines ←! sizesAllLines ;;
           sizesThisLine ←! calculateLineSizesOnAxisA line ;;
           Ok (sizesAllLines ++ [sizesThisLine]))
        (Ok []) lines.

End Calculator.

(** The start of [calculateLayout(elements, options)]: the calculator of
    the orientation, the elements that take part, and their lines as
    [calculateSizesOnAxisA] and the later passes receive them. *)
Definition layoutLines (elements : list Element) (options : Options)
    : result (list (list Element)) :=
  match AXIS_MAPPINGS (orientation options) with
  | None => Throw ConfigError
  | Some a =>
      let allElements := filter (λ e, shouldIncludeInLayout e) elements in
      Ok (reverseLinesIfRequired options (splitLines a options allElements))
  end.

(** The sizes along the primary axis that [calculateLayout] works out. *)
Definition layoutSizesOnAxisA (elements : list Element) (options : Options)
    : result (list (list Size)) :=
  match AXIS_MAPPINGS (orientation options) with
  | None => Throw ConfigError
  | Some a =>
      lines ←! layoutLines elements options ;;
      calculateSizesOnAxisA a options lines
  end.

(** *** The secondary axis, positions and alignment *)

(** [results.push(f(item))] over a list, stopping at the first throw. *)
Fixpoint mapM {A B} (f : A → result B) (items : list A) : result (list B) :=
  match items with
  | [] => Ok []
  | item :: rest =>
      v ←! f item ;;
      vs ←! mapM f rest ;;
      Ok (v :: vs)
  end.

(** A position in the calculator's own coordinates: along the primary axis
    ([position[a.axis]]) and along the secondary one ([position[b.axis]]). *)
Record Position := {
  pos_a : Q;
  pos_b : Q
}.

(** What [calculateBasePositions] leaves: the positions, the expando sizes
    [line[a.size]] and [line[b.size]] of each line that has elements, and
    [lines[a.size]] and [lines[b.size]].  [lines[a.size]] starts at
    [Number.NEGATIVE_INFINITY], which is [None] here. *)
Record BasePositions := {
  positions : list (list Position);
  lineSizes : list (option (Q * Q));
  lines_a : option Q;
  lines_b : Q
}.

(** What [applySizesAndPositions] writes to an element, and the element. *)
Record Laid := {
  laid_element : Element;
  calculatedWidth : Q;
  calculatedHeight : Q;
  localPosition : Q * Q
}.

Section Positions.

(** [a] and [b] are the primary and the secondary axis of the calculator
    that [createCalculator(orientation)] returns. *)
Variable orientation_ : Orientation.
Variables a b : Axis.
Variable options : Options.

(** [options.padding[a.axis]]: the [x] or the [y] of the padding. *)
Definition padding_on (ax : Axis) : Q :=
  axis ax {| x := x4 (padding options); y := y4 (padding options) |}.

(** [minExtentA], [minExtentB], [maxExtentA] *)
Definition minExtentA (element : Element) (elementSize : Size) : Q :=
  - size a elementSize * axis a (pivot element).

Definition minExtentB (element : Element) (elementSize : Size) : Q :=
  - size b elementSize * axis b (pivot element).

Definition maxExtentA (element : Element) (elementSize : Size) : Q :=
  size a elementSize * (1 - axis a (pivot element)).

(** [resetAnchors(allElements)] *)
Definition resetAnchors (allElements : list Element) : list Element :=
  (λ element,
     let anchor_ := anchor element in
     if negb (Qeq_bool (x4 anchor_) 0) || negb (Qeq_bool (y4 anchor_) 0)
        || negb (Qeq_bool (z4 anchor_) 0) || negb (Qeq_bool (w4 anchor_) 0)
     then {| element_id := element_id element;
             layoutchild := layoutchild element;
             el_props := el_props element; pivot := pivot element;
             anchor := {| x4 := 0; y4 := 0; z4 := 0; w4 := 0 |} |}
     else element) <$> allElements.

(** The first loop of [calculateSizesOnAxisB] on one line.
    [line.largestSize] ends up as one of the records of the line, the same
    object: it is kept here as the index of that record, so that what the
    fitting writes to it is seen in the line.  [None] is the initial
    record, whose sizes are [Number.NEGATIVE_INFINITY]. *)
Fixpoint findLargest (line : list Element) (sizesThisLine : list Size)
    (elementIndex : nat) (largest : option nat) : result (option nat) :=
  match line with
  | [] => Ok largest
  | _ :: rest =>
      match sizesThisLine !! elementIndex with
      | None => Throw TypeError
      | Some sizesThisElement =>
          let exceeds :=
            match largest ≫= (sizesThisLine !!.) with
            | Some largestSize =>
                Qgtb (size b sizesThisElement) (size b largestSize)
            | None => true
            end in
          findLargest rest sizesThisLine (S elementIndex)
            (if exceeds then Some elementIndex else largest)
      end
  end.

(** [largestSizesForEachLine]: the records the lines' [largestSize] name.
    The initial record of a line without elements takes the computation
    out of the finite numbers. *)
Definition largestSizeOf (sizesThisLine : list Size) (largest : option nat)
    : result Size :=
  match largest with
  | None => Throw NonFinite
  | Some index =>
      match sizesThisLine !! index with
      | Some largestSize => Ok largestSize
      | None => Throw TypeError
      end
  end.

(** The records of [largestSizesForEachLine] are those of [sizesAllLines]:
    what the fitting did to them is stored where they live. *)
Fixpoint storeLargest (sizesAllLines : list (list Size))
    (largest : list (option nat)) (fitted : list Size) : list (list Size) :=
  match sizesAllLines, largest, fitted with
  | sizesThisLine :: sizesRest, Some index :: largestRest, f :: fittedRest =>
      <[index := f]> sizesThisLine :: storeLargest sizesRest largestRest fittedRest
  | _, _, _ => sizesAllLines
  end.

(** The body of the last loop of [calculateSizesOnAxisB]. *)
Definition fitElementOnAxisB (numLines : nat) (largest : option nat)
    (sizesThisLine : result (list Size)) (elementIndex : nat)
    : result (list Size) :=
  sizesThisLine ←! sizesThisLine ;;
  match sizesThisLine !! elementIndex with
  | None => Throw TypeError
  | Some sizesForThisElement =>
      let currentSize := size b sizesForThisElement in
      availableSize ←!
        (if Nat.eqb numLines 1 then Ok (axis b (availableSpace options))
         else largestSize ←! largestSizeOf sizesThisLine largest ;;
              Ok (size b largestSize)) ;;
      elementFittingAction ←!
        determineFittingAction (fitting b options) currentSize availableSize ;;
      match elementFittingAction with
      | APPLY_STRETCHING =>
          Ok (<[elementIndex :=
                  with_size b (xmin availableSize (maxSize b sizesForThisElement))
                    sizesForThisElement]> sizesThisLine)
      | APPLY_SHRINKING =>
          Ok (<[elementIndex :=
                  with_size b (Qmax availableSize (minSize b sizesForThisElement))
                    sizesForThisElement]> sizesThisLine)
      | NONE => Ok sizesThisLine
      end
  end.

(** [calculateSizesOnAxisB(lines, sizesAllLines)]: the sizes, and for each
    line the index its [largestSize] names. *)
Definition calculateSizesOnAxisB (lines : list (list Element))
    (sizesAllLines : list (list Size))
    : result (list (list Size) * list (option nat)) :=
  let sizesOf lineIndex := default [] (sizesAllLines !! lineIndex) in
  largest ←! mapM (λ '(lineIndex, line),
                     findLargest line (sizesOf lineIndex) 0 None)
               (imap pair lines) ;;
  largestSizesForEachLine ←!
    mapM (λ '(lineIndex, index), largestSizeOf (sizesOf lineIndex) index)
      (imap pair largest) ;;
  let idealRequiredSpace :=
    calculateTotalSpace b options largestSizesForEachLine in
  fittingAction ←! determineFittingAction (fitting b options)
                     idealRequiredSpace (axis b (availableSpace options)) ;;
  fitted ←!
    match fittingAction with
    | APPLY_STRETCHING =>
        stretchSizesToFitContainer b options largestSizesForEachLine
          idealRequiredSpace
    | APPLY_SHRINKING =>
        shrinkSizesToFitContainer b options largestSizesForEachLine
          idealRequiredSpace
    | NONE => Ok largestSizesForEachLine
    end ;;
  let sizesAllLines := storeLargest sizesAllLines largest fitted in
  sizesAllLines ←!
    mapM (λ '(lineIndex, line),
            foldl (fitElementOnAxisB (length lines)
                     (default None (largest !! lineIndex)))
                  (Ok (default [] (sizesAllLines !! lineIndex)))
                  (seq 0 (length line)))
      (imap pair lines) ;;
  Ok (sizesAllLines, largest).

(** The inner loop of [calculateBasePositions]: the elements of one line
    from [elementIndex] on, and the cursor. *)
Fixpoint placeElements (line : list Element) (sizesThisLine : list Size)
    (elementIndex : nat) (cursorA cursorB : Q)
    : result (list Position * Q * Q) :=
  match line with
  | [] => Ok ([], cursorA, cursorB)
  | element :: rest =>
      match sizesThisLine !! elementIndex with
      | None => Throw TypeError
      | Some sizesThisElement =>
          let cursorB := cursorB - minExtentB element sizesThisElement in
          let cursorA := cursorA - minExtentA element sizesThisElement in
          let position := {| pos_a := cursorA; pos_b := cursorB |} in
          let cursorB := cursorB + minExtentB element sizesThisElement in
          let cursorA := cursorA + maxExtentA element sizesThisElement
                         + axis a (spacing options) in
          placed ←!
            placeElements rest sizesThisLine (S elementIndex) cursorA cursorB ;;
          let '(positionsThisLine, cursorA, cursorB) := placed in
          Ok (position :: positionsThisLine, cursorA, cursorB)
      end
  end.

(** The outer loop of [calculateBasePositions], from line [lineIndex] on. *)
Fixpoint placeLines (lines : list (list Element)) (sizes : list (list Size))
    (largest : list (option nat)) (lineIndex : nat)
    (cursorB : Q) (longest : option Q) : result BasePositions :=
  match lines with
  | [] =>
      Ok {| positions := []; lineSizes := []; lines_a := longest;
            lines_b := cursorB - axis b (spacing options) |}
  | line :: rest =>
      match line with
      | [] =>
          base ←! placeLines rest sizes largest (S lineIndex) cursorB longest ;;
          Ok {| positions := [] :: positions base;
                lineSizes := None :: lineSizes base;
                lines_a := lines_a base; lines_b := lines_b base |}
      | _ :: _ =>
          let sizesThisLine := default [] (sizes !! lineIndex) in
          placed ←! placeElements line sizesThisLine 0 0 cursorB ;;
          let '(positionsThisLine, cursorA, cursorB) := placed in
          let line_a := cursorA - axis a (spacing options) in
          largestSize ←!
            largestSizeOf sizesThisLine (default None (largest !! lineIndex)) ;;
          let line_b := size b largestSize in
          let longest :=
            match longest with
            | Some l => Some (Qmax l line_a)
            | None => Some line_a
            end in
          let cursorB := cursorB + line_b + axis b (spacing options) in
          base ←! placeLines rest sizes largest (S lineIndex) cursorB longest ;;
          Ok {| positions := positionsThisLine :: positions base;
                lineSizes := Some (line_a, line_b) :: lineSizes base;
                lines_a := lines_a base; lines_b := lines_b base |}
      end
  end.

(** [calculateBasePositions(lines, sizes)] *)
Definition calculateBasePositions (lines : list (list Element))
    (sizes : list (list Size)) (largest : list (option nat))
    : result BasePositions :=
  placeLines lines sizes largest 0 0 None.

(** The loops of [applyAlignmentAndPadding] on one line. *)
Definition alignLine (base : BasePositions) (lineSize : option (Q * Q))
    (sizesThisLine : list Size) (positionsThisLine : list Position)
    : result (list Position) :=
  mapM (λ '(elementIndex, position),
          match lineSize, sizesThisLine !! elementIndex with
          | Some (line_a, line_b), Some sizesThisElement =>
              let axisAOffset :=
                (axis a (availableSpace options) - line_a)
                * axis a (alignment options) + padding_on a in
              let axisBOffset :=
                (axis b (availableSpace options) - lines_b base)
                * axis b (alignment options) + padding_on b in
              let withinLineAxisBOffset :=
                (line_b - size b sizesThisElement) * axis b (alignment options) in
              Ok {| pos_a := pos_a position + axisAOffset;
                    pos_b := pos_b position + axisBOffset
                             + withinLineAxisBOffset |}
          | None, _ => Throw NonFinite
          | _, None => Throw TypeError
          end)
    (imap pair positionsThisLine).

(** [applyAlignmentAndPadding(lines, sizes, positions)] *)
Definition applyAlignmentAndPadding (sizes : list (list Size))
    (base : BasePositions) : result (list (list Position)) :=
  mapM (λ '(lineIndex, positionsThisLine),
          alignLine base (default None (lineSizes base !! lineIndex))
            (default [] (sizes !! lineIndex)) positionsThisLine)
    (imap pair (positions base)).

(** The calculator's pair of values as [x] and [y]. *)
Definition to_xy (va vb : Q) : Q * Q :=
  match orientation_ with
  | ORIENTATION_HORIZONTAL => (va, vb)
  | _ => (vb, va)
  end.

(** [applySizesAndPositions(lines, sizes, positions)] *)
Definition applySizesAndPositions (lines : list (list Element))
    (sizes : list (list Size)) (positions_ : list (list Position))
    : result (list (list Laid)) :=
  mapM (λ '(lineIndex, line),
          mapM (λ '(elementIndex, element),
                  match default [] (sizes !! lineIndex) !! elementIndex,
                        default [] (positions_ !! lineIndex) !! elementIndex with
                  | Some sizesThisElement, Some position =>
                      let calculated :=
                        to_xy (size a sizesThisElement) (size b sizesThisElement) in
                      Ok {| laid_element := element;
                            calculatedWidth := calculated.1;
                            calculatedHeight := calculated.2;
                            localPosition :=
                              match orientation options with
                              | ORIENTATION_HORIZONTAL =>
                                  (pos_a position, pos_b position)
                              | _ => (pos_b position, pos_a position)
                              end |}
                  | _, _ => Throw TypeError
                  end)
            (imap pair line))
    (imap pair lines).

(** [createLayoutInfo(lines)]: the bounds. *)
Definition createLayoutInfo (base : BasePositions) : result Vec4 :=
  match lines_a base with
  | None => Throw NonFinite
  | Some lines_a_ =>
      let '(layoutWidth, layoutHeight) := to_xy lines_a_ (lines_b base) in
      let xOffset :=
        (x (availableSpace options) - layoutWidth) * x (alignment options)
        + x4 (padding options) in
      let yOffset :=
        (y (availableSpace options) - layoutHeight) * y (alignment options)
        + y4 (padding options) in
      Ok {| x4 := xOffset; y4 := yOffset; z4 := layoutWidth; w4 := layoutHeight |}
  end.

(** [calculateAll(allElements, layoutOptions)]: what is written to the
    elements, line by line, and the layout info. *)
Definition calculateAll (allElements : list Element)
    : result (list (list Laid) * Vec4) :=
  let allElements := filter (λ e, shouldIncludeInLayout e) allElements in
  let allElements := resetAnchors allElements in
  let lines := reverseLinesIfRequired options (splitLines a options allElements) in
  sizesOnAxisA ←! calculateSizesOnAxisA a options lines ;;
  fitted ←! calculateSizesOnAxisB lines sizesOnAxisA ;;
  let '(sizes, largest) := fitted in
  base ←! calculateBasePositions lines sizes largest ;;
  positions_ ←! applyAlignmentAndPadding sizes base ;;
  laid ←! applySizesAndPositions lines sizes positions_ ;;
  layoutInfo ←! createLayoutInfo base ;;
  Ok (laid, layoutInfo).

End Positions.

(** [LayoutCalculator.calculateLayout(elements, options)] *)
Definition calculateLayout (elements : list Element) (options : Options)
    : result (list (list Laid) * Vec4) :=
  match AXIS_MAPPINGS (orientation options),
        AXIS_MAPPINGS (OPPOSITE_ORIENTATION (orientation options)) with
  | Some a, Some b => calculateAll (orientation options) a b options elements
  | _, _ => Throw ConfigError
  end.

End Layout.

(** * Properties *)

(** ** Component: events and hooks of an assignment *)

Section ComponentFacts.

Import Component.

(** The callbacks the constructor registers, and observers added with [on]. *)
Definition base_callbacks : list (string * listener) :=
  [("set", ReFire); ("set_enabled", OnSetEnabled)].

Definition observer_callbacks (obs : list (string * nat))
    : list (string * listener) :=
  (λ o, (o.1, Observer o.2)) <$> obs.

Definition listeners (name : string) (cbs : list (string * listener))
    : list listener :=
  snd <$> filter (λ cb, cb.1 = name) cbs.

Definition passive (l : listener) : Prop := l ≠ ReFire.

(** What a callback other than the re-firing one adds to the trace. *)
Definition passive_actions (e : Entity) (args : list value) (l : listener)
    : list action :=
  match l with
  | OnSetEnabled =>
      if negb (strict_eq (arg 1 args) (arg 2 args)) && entity_enabled e
      then [if truthy (arg 2 args) then CalledOnEnable else CalledOnDisable]
      else []
  | Observer id => [Notified id args]
  | ReFire => []
  end.

Definition extend (tr : list action) (c : t) : t :=
  {| system := system c; entity := entity c; accessors := accessors c;
     callbacks := callbacks c; own := own c; trace := trace c ++ tr |}.

Lemma extend_nil c : extend [] c = c.
Proof. destruct c; unfold extend; simpl; by rewrite app_nil_r. Qed.

Lemma extend_extend tr1 tr2 c : extend tr2 (extend tr1 c) = extend (tr1 ++ tr2) c.
Proof. unfold extend; simpl; by rewrite app_assoc. Qed.

Lemma record_extend a c : record a c = extend [a] c.
Proof. reflexivity. Qed.

Lemma invoke_passive fire l args c :
  passive l →
  invoke fire l args c = Ok (extend (passive_actions (entity c) args l) c).
Proof.
  intros Hl. destruct l as [| |id]; simpl.
  - by destruct Hl.
  - unfold onSetEnabled.
    destruct (strict_eq _ _); simpl; [by rewrite extend_nil|].
    destruct (entity_enabled _); [|by rewrite extend_nil].
    by destruct (truthy _).
  - reflexivity.
Qed.

Lemma run_passive fire ls args c :
  Forall passive ls →
  foldl (λ acc l, c' ←! acc ;; invoke fire l args c') (Ok c) ls
  = Ok (extend (concat (passive_actions (entity c) args <$> ls)) c).
Proof.
  intros Hls. revert c. induction Hls as [|l ls Hl _ IH]; intros c; simpl.
  - by rewrite extend_nil.
  - rewrite (invoke_passive _ _ _ _ Hl), IH, extend_extend. reflexivity.
Qed.

Lemma fire_passive n name args c :
  Forall passive (listeners name (callbacks c)) →
  fire (S n) name args c
  = Ok (extend (Fired name args
                  :: concat (passive_actions (entity c) args
                               <$> listeners name (callbacks c))) c).
Proof.
  intros Hls. simpl. fold (listeners name (callbacks c)).
  rewrite record_extend, (run_passive _ _ _ _ Hls), extend_extend.
  reflexivity.
Qed.

Lemma listeners_app name l1 l2 :
  listeners name (l1 ++ l2) = listeners name l1 ++ listeners name l2.
Proof. unfold listeners. by rewrite filter_app, fmap_app. Qed.

Lemma observers_passive name obs :
  Forall passive (listeners name (observer_callbacks obs)).
Proof.
  unfold listeners, observer_callbacks.
  induction obs as [|o obs IH]; simpl; [constructor|].
  rewrite filter_cons. destruct (decide _); simpl; [|exact IH].
  constructor; [discriminate|exact IH].
Qed.

Lemma listeners_base_set : listeners "set" base_callbacks = [ReFire].
Proof. reflexivity. Qed.

Lemma listeners_base_leaf p :
  listeners ("set_" +:+ p) base_callbacks
  = if bool_decide (p = "enabled") then [OnSetEnabled] else [].
Proof.
  unfold listeners, base_callbacks. rewrite !filter_cons, filter_nil. simpl.
  case_bool_decide as Hp.
  - subst p. reflexivity.
  - destruct (decide _) as [E|_]; [|reflexivity].
    exfalso. apply Hp. simpl in E. by injection E.
Qed.

(** No event and no hook among what observers add. *)
Lemma events_observers e args name obs :
  events (concat (passive_actions e args
                    <$> listeners name (observer_callbacks obs))) = [].
Proof.
  unfold listeners, observer_callbacks, events.
  induction obs as [|o obs IH]; simpl; [reflexivity|].
  rewrite filter_cons. destruct (decide _); simpl; exact IH.
Qed.

Lemma hooks_observers e args name obs :
  hooks (concat (passive_actions e args
                   <$> listeners name (observer_callbacks obs))) = [].
Proof.
  unfold listeners, observer_callbacks, hooks.
  induction obs as [|o obs IH]; simpl; [reflexivity|].
  rewrite filter_cons. destruct (decide _); simpl; [|exact IH].
  rewrite filter_cons_False by (intros []). exact IH.
Qed.

Lemma events_app tr1 tr2 : events (tr1 ++ tr2) = events tr1 ++ events tr2.
Proof. unfold events. apply omap_app. Qed.

Lemma hooks_app tr1 tr2 : hooks (tr1 ++ tr2) = hooks tr1 ++ hooks tr2.
Proof. unfold hooks. apply filter_app. Qed.

(** What an assignment through the accessor appends to the trace. *)
Definition assignment_trace (e : Entity) (obs : list (string * nat))
    (p : string) (args : list value) : list action :=
  Fired "set" args
  :: (Fired ("set_" +:+ p) args
        :: concat (passive_actions e args
                     <$> ((if bool_decide (p = "enabled")
                           then [OnSetEnabled] else [])
                          ++ listeners ("set_" +:+ p) (observer_callbacks obs))))
  ++ concat (passive_actions e args <$> listeners "set" (observer_callbacks obs)).

Lemma fire_S n name args c :
  fire (S n) name args c
  = foldl (λ acc l, c' ←! acc ;; invoke (fire n) l args c')
      (Ok (record (Fired name args) c)) (listeners name (callbacks c)).
Proof. reflexivity. Qed.

Lemma accessor_set_trace n obs p v d c :
  callbacks c = base_callbacks ++ observer_callbacks obs →
  data c = Some d →
  let args := [VStr p; default VUndefined (d !! p); v] in
  accessor_set (S (S n)) p v c
  = Ok (extend (assignment_trace (entity c) obs p args) (write_data p v c)).
Proof.
  intros Hcb Hd args. unfold accessor_set. rewrite Hd. fold args.
  set (c1 := write_data p v c).
  assert (Hcb1 : callbacks c1 = base_callbacks ++ observer_callbacks obs)
    by exact Hcb.
  rewrite fire_S, Hcb1, listeners_app, listeners_base_set.
  cbn [app foldl JS.bind invoke].
  change (to_string (arg 0 args)) with p.
  rewrite fire_passive; cycle 1.
  { cbn [callbacks record]. rewrite Hcb1, listeners_app, listeners_base_leaf.
    apply Forall_app. split; [|apply observers_passive].
    case_bool_decide; repeat constructor; discriminate. }
  rewrite run_passive by apply observers_passive.
  cbn [callbacks entity record extend].
  rewrite Hcb1, listeners_app, listeners_base_leaf.
  rewrite record_extend, !extend_extend. reflexivity.
Qed.

Lemma events_assignment_trace e obs p args :
  events (assignment_trace e obs p args)
  = [("set", args); ("set_" +:+ p, args)].
Proof.
  unfold assignment_trace.
  change (events (Fired "set" args :: ?l)) with (("set", args) :: events l).
  rewrite events_app, events_observers, app_nil_r.
  change (events (Fired ?n args :: ?l)) with ((n, args) :: events l).
  rewrite fmap_app, concat_app, events_app, events_observers, app_nil_r.
  case_bool_decide; [|reflexivity].
  simpl. destruct (_ && _); [|reflexivity]. by destruct (truthy _).
Qed.

Lemma hooks_assignment_trace e obs p args :
  hooks (assignment_trace e obs p args)
  = if bool_decide (p = "enabled") then passive_actions e args OnSetEnabled
    else [].
Proof.
  unfold assignment_trace.
  change (hooks (Fired "set" args :: ?l)) with (hooks l).
  rewrite hooks_app, hooks_observers, app_nil_r.
  change (hooks (Fired ?n args :: ?l)) with (hooks l).
  rewrite fmap_app, concat_app, hooks_app, hooks_observers, app_nil_r.
  case_bool_decide; [|reflexivity].
  simpl. destruct (_ && _); [|reflexivity]. by destruct (truthy _).
Qed.

Lemma data_write_data p v d c :
  data c = Some d → data (write_data p v c) = Some (<[p := v]> d).
Proof.
  unfold data, write_data. simpl. intros Hd.
  by rewrite lookup_alter_eq, Hd.
Qed.

Lemma assign_accessor fuel p v c :
  p ∈ accessors c → assign fuel p v c = accessor_set fuel p v c.
Proof. intros Hp. unfold assign. by rewrite bool_decide_eq_true_2. Qed.

Lemma strict_eq_refl v : strict_eq v v = true.
Proof.
  destruct v as [| |b|q|s|r]; simpl; try reflexivity.
  - by destruct b.
  - apply Qeq_bool_iff. reflexivity.
  - by apply bool_decide_eq_true_2.
  - by apply bool_decide_eq_true_2.
Qed.

(** A scrollbar component as its system builds it: the schema of the
    scrollbar system, one entity, its data registered in the store. *)
Definition scrollbar_schema : list descriptor :=
  [DObject "enabled" "boolean"; DObject "orientation" "number";
   DObject "value" "number"; DObject "handleSize" "number";
   DObject "handleEntity" "entity"].

Definition scrollbar_data : gmap string value :=
  {[ "enabled" := VBool false; "value" := VNum (1 # 2) ]}.

Definition scrollbar : Component.t :=
  constructor
    {| schema := Some scrollbar_schema;
       store := {[ "guid-1" := scrollbar_data ]} |}
    {| guid := "guid-1"; entity_enabled := true |}.

(** C1 (amended): for a component whose data is registered and a property
    [p] its schema declares, the assignment [component[p] = v] returns,
    stores [v], and fires exactly one [set] and exactly one [set_<p>]
    event, both carrying the name, the old value and [v] -- for every [v],
    equal to the stored value or not. *)
Theorem assign_fires_set_and_set_name n obs p v d (c : Component.t) :
  callbacks c = base_callbacks ++ observer_callbacks obs →
  p ∈ accessors c →
  data c = Some d →
  ∃ c' delta,
    assign (S (S n)) p v c = Ok c' ∧
    trace c' = trace c ++ delta ∧
    data c' = Some (<[p := v]> d) ∧
    events delta
    = [("set", [VStr p; default VUndefined (d !! p); v]);
       ("set_" +:+ p, [VStr p; default VUndefined (d !! p); v])] ∧
    count_fired "set" delta = 1 ∧
    count_fired ("set_" +:+ p) delta = 1.
Proof.
  intros Hcb Hp Hd.
  eexists _, (assignment_trace (entity c) obs p _).
  rewrite (assign_accessor _ _ _ _ Hp), (accessor_set_trace _ obs _ _ d) by done.
  split; [reflexivity|]. split; [reflexivity|].
  split; [by apply data_write_data|].
  unfold count_fired. rewrite events_assignment_trace.
  split; [reflexivity|]. split.
  - rewrite filter_cons_True by reflexivity.
    rewrite filter_cons_False by (simpl; discriminate). reflexivity.
  - rewrite filter_cons_False by (simpl; discriminate).
    rewrite filter_cons_True by reflexivity. reflexivity.
Qed.

Lemma assign_fires_set_and_set_name_witness :
  ∃ c' delta,
    assign 2 "value" (VNum 3) scrollbar = Ok c' ∧
    trace c' = trace scrollbar ++ delta ∧
    data c' = Some (<["value" := VNum 3]> scrollbar_data) ∧
    events delta
    = [("set", [VStr "value"; default VUndefined (scrollbar_data !! "value"); VNum 3]);
       ("set_" +:+ "value",
        [VStr "value"; default VUndefined (scrollbar_data !! "value"); VNum 3])] ∧
    count_fired "set" delta = 1 ∧
    count_fired ("set_" +:+ "value") delta = 1.
Proof.
  apply (assign_fires_set_and_set_name 0 [] "value" (VNum 3) scrollbar_data
           scrollbar).
  - reflexivity.
  - simpl. set_solver.
  - reflexivity.
Defined.

(** C1 as stated fails: the stored value of [value] is 1/2, and assigning
    1/2 again fires one [set] and one [set_value] event, not zero. *)
Lemma same_value_assignment_fires :
  accessor_get "value" scrollbar = Ok (VNum (1 # 2)) ∧
  ∃ c', assign 2 "value" (VNum (1 # 2)) scrollbar = Ok c' ∧
        count_fired "set" (trace c') = 1 ∧
        count_fired "set_value" (trace c') = 1.
Proof.
  split; [reflexivity|].
  eexists. split; [reflexivity|]. split; reflexivity.
Qed.

Lemma assign_enabled n obs v d c :
  callbacks c = base_callbacks ++ observer_callbacks obs →
  "enabled" ∈ accessors c →
  data c = Some d →
  let args := [VStr "enabled"; default VUndefined (d !! "enabled"); v] in
  let c' := extend (assignment_trace (entity c) obs "enabled" args)
              (write_data "enabled" v c) in
  assign (S (S n)) "enabled" v c = Ok c' ∧
  callbacks c' = base_callbacks ++ observer_callbacks obs ∧
  "enabled" ∈ accessors c' ∧
  entity c' = entity c ∧
  data c' = Some (<["enabled" := v]> d) ∧
  hooks (assignment_trace (entity c) obs "enabled" args)
  = if negb (strict_eq (default VUndefined (d !! "enabled")) v)
       && entity_enabled (entity c)
    then [if truthy v then CalledOnEnable else CalledOnDisable]
    else [].
Proof.
  intros Hcb Hp Hd args c'.
  rewrite (assign_accessor _ _ _ _ Hp), (accessor_set_trace _ obs _ _ d) by done.
  repeat split; try done.
  - by apply data_write_data.
  - by rewrite hooks_assignment_trace.
Qed.

(** C2: a write to [enabled] (data registered) returns and runs exactly the
    hook of the transition: [onEnable] when the old value differs from the
    new one, the new one is true and the entity is enabled; [onDisable]
    when they differ, the new one is false and the entity is enabled;
    nothing else.  Writing the same boolean twice runs no hook the second
    time, so at most one hook over both writes. *)
Theorem enabled_write_runs_hook_on_edge n obs d (c : Component.t) :
  callbacks c = base_callbacks ++ observer_callbacks obs →
  "enabled" ∈ accessors c →
  data c = Some d →
  (∀ v, ∃ c' delta,
      assign (S (S n)) "enabled" v c = Ok c' ∧
      trace c' = trace c ++ delta ∧
      hooks delta
      = if negb (strict_eq (default VUndefined (d !! "enabled")) v)
           && entity_enabled (entity c)
        then [if truthy v then CalledOnEnable else CalledOnDisable]
        else []) ∧
  (∀ b : bool, ∃ c1 c2 delta1 delta2,
      assign (S (S n)) "enabled" (VBool b) c = Ok c1 ∧
      assign (S (S n)) "enabled" (VBool b) c1 = Ok c2 ∧
      trace c1 = trace c ++ delta1 ∧
      trace c2 = trace c1 ++ delta2 ∧
      hooks delta2 = [] ∧
      (length (hooks (delta1 ++ delta2)) ≤ 1)%nat).
Proof.
  intros Hcb Hp Hd. split.
  - intros v.
    destruct (assign_enabled n obs v d c Hcb Hp Hd) as (H1 & _ & _ & _ & _ & H2).
    eexists _, _. split; [exact H1|]. split; [reflexivity|exact H2].
  - intros b.
    destruct (assign_enabled n obs (VBool b) d c Hcb Hp Hd)
      as (H1 & Hcb1 & Hp1 & He1 & Hd1 & Hh1).
    set (delta1 := assignment_trace (entity c) obs "enabled" _) in *.
    set (c1 := extend delta1 _) in *.
    destruct (assign_enabled n obs (VBool b) _ c1 Hcb1 Hp1 Hd1)
      as (H2 & _ & _ & _ & _ & Hh2).
    set (delta2 := assignment_trace (entity c1) obs "enabled" _) in *.
    assert (Hz : hooks delta2 = []).
    { rewrite Hh2, lookup_insert_eq. simpl default.
      by rewrite strict_eq_refl. }
    exists c1, (extend delta2 (write_data "enabled" (VBool b) c1)),
      delta1, delta2.
    split; [exact H1|]. split; [exact H2|].
    split; [reflexivity|]. split; [reflexivity|]. split; [exact Hz|].
    rewrite hooks_app, Hz, app_nil_r, Hh1.
    destruct (_ && _); simpl; lia.
Qed.

Lemma enabled_write_runs_hook_on_edge_witness :
  (∀ v, ∃ c' delta,
      assign 2 "enabled" v scrollbar = Ok c' ∧
      trace c' = trace scrollbar ++ delta ∧
      hooks delta
      = if negb (strict_eq (default VUndefined (scrollbar_data !! "enabled")) v)
           && entity_enabled (entity scrollbar)
        then [if truthy v then CalledOnEnable else CalledOnDisable]
        else []) ∧
  (∀ b : bool, ∃ c1 c2 delta1 delta2,
      assign 2 "enabled" (VBool b) scrollbar = Ok c1 ∧
      assign 2 "enabled" (VBool b) c1 = Ok c2 ∧
      trace c1 = trace scrollbar ++ delta1 ∧
      trace c2 = trace c1 ++ delta2 ∧
      hooks delta2 = [] ∧
      (length (hooks (delta1 ++ delta2)) ≤ 1)%nat).
Proof.
  apply (enabled_write_runs_hook_on_edge 0 [] scrollbar_data scrollbar).
  - reflexivity.
  - simpl. set_solver.
  - reflexivity.
Defined.

(** The two hooks on the sample component: enabling it runs [onEnable]
    once, enabling it again runs nothing. *)
Example enable_twice :
  ∃ c1 c2,
    assign 2 "enabled" (VBool true) scrollbar = Ok c1 ∧
    assign 2 "enabled" (VBool true) c1 = Ok c2 ∧
    hooks (trace c1) = [CalledOnEnable] ∧
    hooks (trace c2) = [CalledOnEnable].
Proof. eexists _, _. repeat split; reflexivity. Qed.

End ComponentFacts.

(** ** AnimComponent: state graphs, manifest, parameters, update *)

Section AnimFacts.

Import Anim.

(** The reserved state names and a controller to run the examples with:
    one that consumes every trigger that is set. *)
Definition control_states : list string := ["START"; "END"; "ANY"].

Definition consume_set_triggers (l : Layer) (dt : Q) (ps : gmap string Param)
    : list string :=
  (map_to_list ps).*1.

(** C7: assigning [null] to [stateGraphAsset] returns, and leaves the layer
    list, the layer-index map, the parameter map and the animation-asset
    manifest empty, the state graph and its asset reference [null] and
    [playing] false, whatever was loaded before. *)
Theorem stateGraphAsset_null_resets (cs : list string) (c : Anim.t) :
  ∃ c', set_stateGraphAsset cs RefNull c = Ok c' ∧
        _layers c' = [] ∧
        _layerIndices c' = ∅ ∧
        _parameters c' = ∅ ∧
        _animationAssets c' = ∅ ∧
        _stateGraph c' = None ∧
        _stateGraphAsset c' = None ∧
        _playing c' = false.
Proof. exists (removeStateGraph c). repeat split. Qed.

Lemma emit_manifest e c : _animationAssets (emit e c) = _animationAssets c.
Proof. reflexivity. Qed.

Lemma removeNodeAnimations_manifest n l c :
  _animationAssets (removeNodeAnimations n l c) = _animationAssets c.
Proof.
  unfold removeNodeAnimations.
  case_bool_decide; [destruct (baseLayer c)|destruct (findAnimationLayer l c)];
    reflexivity.
Qed.

Lemma setupAnimationAsset_control cs layer c s :
  is_control_state cs s = true → setupAnimationAsset cs layer c s = c.
Proof. intros H. unfold setupAnimationAsset. by rewrite H. Qed.

Lemma setupAnimationAsset_fresh cs layer c s :
  is_control_state cs s = false →
  _animationAssets c !! (layer_name layer +:+ ":" +:+ s) = None →
  setupAnimationAsset cs layer c s
  = with_manifest (<[layer_name layer +:+ ":" +:+ s := {| asset := None |}]>
                     (_animationAssets c)) c.
Proof. intros H1 H2. unfold setupAnimationAsset. by rewrite H1, H2. Qed.

Lemma loadAnimationAsset_control cs layer c s :
  is_control_state cs s = true → loadAnimationAsset cs layer (Ok c) s = Ok c.
Proof. intros H. unfold loadAnimationAsset. simpl. by rewrite H. Qed.

Lemma loadAnimationAsset_unassigned cs layer c s :
  is_control_state cs s = false →
  _animationAssets c !! (layer_name layer +:+ ":" +:+ s)
  = Some {| asset := None |} →
  loadAnimationAsset cs layer (Ok c) s
  = Ok (removeNodeAnimations s (layer_name layer) c).
Proof. intros H1 H2. unfold loadAnimationAsset. simpl. by rewrite H1, H2. Qed.

(** The graph of the claim: one layer, its states [START] and [S]. *)
Definition one_layer_graph (l : LayerDesc) (ps : gmap string Param)
    : StateGraph :=
  {| layers := [l]; parameters := ps |}.

(** C6: on a freshly constructed component, [loadStateGraph] of a graph
    with one layer whose states are [START] and one state [S] that is no
    control state returns and leaves a manifest with exactly one entry,
    keyed [<layerName>:S], whose asset is [null]. *)
Theorem loadStateGraph_manifest (cs : list string) registry
    (l : LayerDesc) (ps : gmap string Param) (S : string) :
  "START" ∈ cs →
  S ∉ cs →
  state_name <$> states l ≡ₚ ["START"; S] →
  ∃ c', loadStateGraph cs (one_layer_graph l ps) (constructor registry) = Ok c' ∧
        _animationAssets c' = {[ name l +:+ ":" +:+ S := {| asset := None |} ]}.
Proof.
  intros Hstart HS Hperm.
  assert (Hc1 : is_control_state cs "START" = true)
    by (by apply bool_decide_eq_true_2).
  assert (Hc2 : is_control_state cs S = false)
    by (by apply bool_decide_eq_false_2).
  assert (Hstates : state_name <$> states l = ["START"; S]
                    ∨ state_name <$> states l = [S; "START"]).
  { destruct (state_name <$> states l) as [|s1 [|s2 [|s3 rest]]] eqn:E.
    - apply Permutation_length in Hperm. discriminate.
    - apply Permutation_length in Hperm. discriminate.
    - apply Permutation_length_2_inv in Hperm. destruct Hperm as [E'|E'].
      + left. by injection E' as -> ->.
      + right. by injection E' as -> ->.
    - apply Permutation_length in Hperm. discriminate. }
  unfold loadStateGraph, one_layer_graph. cbn [layers foldl].
  set (c1 := _addLayer l _).
  assert (Hm1 : _animationAssets c1 = ∅) by reflexivity.
  unfold setupAnimationAssets.
  change (_layers c1) with
    [{| layer_name := name l; layer_states := state_name <$> states l;
        layer_transitions := transitions l; layer_weight := weight l;
        layer_mask := mask l; layer_blendType := blendType l;
        layer_time := 0%Q |}].
  set (L := Build_Layer _ _ _ _ _ _ _).
  assert (HL : layer_name L = name l) by reflexivity.
  cbn [foldl]. change (layer_states L) with (state_name <$> states l).
  set (key := name l +:+ ":" +:+ S).
  assert (Hsetup :
    foldl (setupAnimationAsset cs L) c1 (state_name <$> states l)
    = with_manifest {[ key := {| asset := None |} ]} c1).
  { destruct Hstates as [-> | ->]; cbn [foldl].
    - rewrite (setupAnimationAsset_control cs L c1 "START") by done.
      rewrite setupAnimationAsset_fresh; [|done|by rewrite Hm1].
      by rewrite Hm1, insert_empty.
    - rewrite (setupAnimationAsset_fresh cs L c1 S); [|done|by rewrite Hm1].
      rewrite setupAnimationAsset_control by done.
      by rewrite Hm1, insert_empty. }
  rewrite Hsetup. set (c2 := with_manifest _ c1).
  assert (Hm2 : _animationAssets c2 !! (layer_name L +:+ ":" +:+ S)
                = Some {| asset := None |}) by apply lookup_singleton_eq.
  unfold loadAnimationAssets.
  change (_layers c2) with [L]. cbn [foldl].
  change (layer_states L) with (state_name <$> states l).
  exists (removeNodeAnimations S (layer_name L) c2). split.
  - destruct Hstates as [-> | ->]; cbn [foldl].
    + rewrite (loadAnimationAsset_control cs L c2 "START") by done.
      by rewrite loadAnimationAsset_unassigned by done.
    + rewrite (loadAnimationAsset_unassigned cs L c2 S) by done.
      by rewrite loadAnimationAsset_control by done.
  - by rewrite removeNodeAnimations_manifest.
Qed.

Definition walk_layer : LayerDesc :=
  {| name := "Base";
     states := [{| state_name := "START"; state_speed := 1%Q |};
                {| state_name := "Walk"; state_speed := 1%Q |}];
     transitions := [("START", "Walk")]; weight := 1%Q;
     mask := None; blendType := "OVERWRITE" |}.

Lemma loadStateGraph_manifest_witness :
  ∃ c', loadStateGraph control_states (one_layer_graph walk_layer ∅)
          (constructor ∅) = Ok c' ∧
        _animationAssets c'
        = {[ name walk_layer +:+ ":" +:+ "Walk" := {| asset := None |} ]}.
Proof.
  apply (loadStateGraph_manifest control_states ∅ walk_layer ∅ "Walk").
  - apply (bool_decide_unpack _). exact I.
  - apply (bool_decide_unpack _). exact I.
  - reflexivity.
Defined.

(** A reserved name is no exception to the exclusion: a layer whose only
    other state is [END] leaves the manifest empty. *)
Example loadStateGraph_reserved_state :
  ∃ c', loadStateGraph control_states
          (one_layer_graph
             {| name := "Base";
                states := [{| state_name := "START"; state_speed := 1%Q |};
                           {| state_name := "END"; state_speed := 1%Q |}];
                transitions := [("START", "END")]; weight := 1%Q;
                mask := None; blendType := "OVERWRITE" |} ∅)
          (constructor ∅) = Ok c' ∧
        _animationAssets c' = ∅.
Proof. eexists. split; reflexivity. Qed.

(** *** The two loops of [update] *)

Definition emits (es : list effect) (c : Anim.t) : Anim.t :=
  {| _stateGraphAsset := _stateGraphAsset c;
     _animationAssets := _animationAssets c; _speed := _speed c;
     _activate := _activate c; _playing := _playing c;
     _rootBone := _rootBone c; _stateGraph := _stateGraph c;
     _layers := _layers c; _layerIndices := _layerIndices c;
     _parameters := _parameters c; _targets := _targets c;
     _consumedTriggers := _consumedTriggers c; assets := assets c;
     effects := effects c ++ es |}.

Lemma set_add_extends x s : ∃ extra, set_add x s = s ++ extra.
Proof.
  unfold set_add. case_bool_decide; [exists []|exists [x]]; [|done].
  by rewrite app_nil_r.
Qed.

Lemma foldl_set_add_extends names s :
  ∃ extra, foldl (λ s x, set_add x s) s names = s ++ extra.
Proof.
  revert s. induction names as [|x names IH]; intros s; simpl.
  - exists []. by rewrite app_nil_r.
  - destruct (set_add_extends x s) as [e1 ->].
    destruct (IH (s ++ e1)) as [e2 ->].
    exists (e1 ++ e2). by rewrite app_assoc.
Qed.

(** The layer loop leaves the parameters alone: it appends to the consumed
    set and to the effects, one [LayerUpdated] per layer, in order. *)
Lemma update_layers_frame lc dt ls c :
  ∃ extra,
    (update_layers lc dt ls c).2
    = with_consumed (_consumedTriggers c ++ extra)
        (emits ((λ l, LayerUpdated (layer_name l) dt) <$> ls) c).
Proof.
  revert c. induction ls as [|l ls IH]; intros c; simpl.
  - exists []. destruct c; unfold with_consumed, emits; simpl.
    by rewrite !app_nil_r.
  - match goal with |- context [update_layers lc dt ls ?c1] =>
      destruct (IH c1) as [e2 He2];
      destruct (update_layers lc dt ls c1) as [ls' c2] end.
    simpl in *. subst c2.
    destruct (foldl_set_add_extends (lc l dt (_parameters c))
                (_consumedTriggers c)) as [e1 ->].
    exists (e1 ++ e2). unfold with_consumed, emits, emit; simpl.
    by rewrite <- !app_assoc.
Qed.

Lemma update_layers_length lc dt ls c :
  length (update_layers lc dt ls c).1 = length ls.
Proof.
  revert c. induction ls as [|l ls IH]; intros c; simpl; [done|].
  match goal with |- context [update_layers lc dt ls ?c1] =>
    specialize (IH c1); destruct (update_layers lc dt ls c1) end.
  simpl in *. by rewrite IH.
Qed.

(** A parameter with its value set to [false]. *)
Definition cleared (p : Param) : Param :=
  {| param_type := param_type p; param_value := VBool false |}.

(** The reset loop stops at the first name that is no parameter. *)
Lemma reset_consumed_missing t ts c :
  _parameters c !! t = None → reset_consumed (t :: ts) c = (c, Some TypeError).
Proof. intros H. simpl. by rewrite H. Qed.

(** A parameter the loop has reset stays reset, whatever follows. *)
Lemma reset_consumed_keeps_cleared ts c t p :
  _parameters c !! t = Some (cleared p) →
  _parameters (reset_consumed ts c).1 !! t = Some (cleared p).
Proof.
  revert c. induction ts as [|t' ts IH]; intros c Ht; simpl; [done|].
  destruct (_parameters c !! t') as [p'|] eqn:E; [|done].
  apply IH. simpl. destruct (decide (t' = t)) as [->|Hne].
  - rewrite lookup_insert_eq. rewrite Ht in E. by injection E as <-.
  - by rewrite lookup_insert_ne.
Qed.

(** *** A component with a graph loaded *)

Definition sample_parameters : gmap string Param :=
  {[ "speed" := {| param_type := ANIM_PARAMETER_FLOAT;
                   param_value := VNum (3 # 2) |};
     "jump" := {| param_type := ANIM_PARAMETER_TRIGGER;
                  param_value := VBool false |} ]}.

Definition sample_graph : StateGraph :=
  {| layers := [walk_layer]; parameters := sample_parameters |}.

Definition loaded : Anim.t :=
  match loadStateGraph control_states sample_graph (constructor ∅) with
  | Ok c => c
  | Throw _ => constructor ∅
  end.

Example loaded_parameters : _parameters loaded = sample_parameters.
Proof. reflexivity. Qed.

Example loaded_layers : layer_name <$> _layers loaded = ["Base"].
Proof. reflexivity. Qed.

(** *** Typed accessors on a missing or mismatched parameter *)

Definition mismatch (name : string) (type : ParamType) (c : Anim.t) : Prop :=
  match _parameters c !! name with
  | Some param => param_type param ≠ type
  | None => True
  end.

(** The accessors that go through [setParameterValue] alone do nothing but
    log, and the getter returns nothing. *)
Lemma setParameterValue_mismatch name type v c :
  mismatch name type c →
  setParameterValue name type v c = emit (LogCannotSet name type) c.
Proof.
  unfold mismatch, setParameterValue.
  destruct (_parameters c !! name) as [param|]; [|done].
  intros H. by rewrite bool_decide_eq_false_2.
Qed.

Lemma getParameterValue_mismatch name type c :
  mismatch name type c →
  getParameterValue name type c = (None, emit (LogCannotGet name type) c).
Proof.
  unfold mismatch, getParameterValue.
  destruct (_parameters c !! name) as [param|]; [|done].
  intros H. by rewrite bool_decide_eq_false_2.
Qed.

(** C8, where the code departs from it: [setTrigger(name, true)] on a name
    that is no trigger logs and leaves the parameter map alone, but still
    puts the name into the consumed-triggers set.  On the float parameter
    [speed] the next [update] then overwrites the float with [false]; on a
    name that is no parameter the next [update] throws. *)
Theorem setTrigger_mismatch_marks_consumed
    (lc : Layer → Q → gmap string Param → list string) (dt : Q) :
  getFloat "speed" loaded = (Some (VNum (3 # 2)), loaded) ∧
  (let c := setTrigger "speed" true loaded in
   _parameters c = _parameters loaded ∧
   effects c = effects loaded ++ [LogCannotSet "speed" ANIM_PARAMETER_TRIGGER] ∧
   _consumedTriggers c = ["speed"] ∧
   _parameters (update lc dt c).1 !! "speed"
   = Some {| param_type := ANIM_PARAMETER_FLOAT; param_value := VBool false |}) ∧
  (let c := setTrigger "ghost" true loaded in
   _parameters c = _parameters loaded ∧
   effects c = effects loaded ++ [LogCannotSet "ghost" ANIM_PARAMETER_TRIGGER] ∧
   _consumedTriggers c = ["ghost"] ∧
   (update lc dt c).2 = Some TypeError).
Proof.
  split; [reflexivity|]. split.
  - cbv zeta. split; [reflexivity|]. split; [reflexivity|].
    split; [reflexivity|].
    set (c := setTrigger "speed" true loaded).
    unfold update.
    destruct (update_layers_frame lc (dt * _speed c)%Q (_layers c) c)
      as [extra Hc1].
    destruct (update_layers lc (dt * _speed c)%Q (_layers c) c) as [ls c1].
    simpl in Hc1. subst c1.
    set (c1 := with_layers ls _).
    change (_consumedTriggers c1) with ("speed" :: extra).
    cbn [reset_consumed].
    change (_parameters c1 !! "speed")
      with (Some {| param_type := ANIM_PARAMETER_FLOAT;
                    param_value := VNum (3 # 2) |}).
    cbv iota beta.
    match goal with |- context [reset_consumed extra ?c2] =>
      pose proof (reset_consumed_keeps_cleared extra c2 "speed"
                    {| param_type := ANIM_PARAMETER_FLOAT;
                       param_value := VNum (3 # 2) |}
                    (lookup_insert_eq _ _ _)) as Hkeep;
      destruct (reset_consumed extra c2) as [c3 [e|]] end;
      exact Hkeep.
  - cbv zeta. split; [reflexivity|]. split; [reflexivity|].
    split; [reflexivity|].
    set (c := setTrigger "ghost" true loaded).
    unfold update.
    destruct (update_layers_frame lc (dt * _speed c)%Q (_layers c) c)
      as [extra Hc1].
    destruct (update_layers lc (dt * _speed c)%Q (_layers c) c) as [ls c1].
    simpl in Hc1. subst c1.
    set (c1 := with_layers ls _).
    change (_consumedTriggers c1) with ("ghost" :: extra).
    by rewrite reset_consumed_missing.
Qed.

(** *** Single-frame triggers *)

(** C3, where the code departs from it: [jump] is a trigger parameter, set
    with [singleFrame]; the consumed-triggers set already holds a name that
    is no parameter (left there by an earlier [setTrigger("ghost", true)]).
    [update] then throws at that name: [jump] is still true after the call
    and the consumed-triggers set is not empty. *)
Theorem update_stops_at_unknown_trigger
    (lc : Layer → Q → gmap string Param → list string) (dt : Q) :
  let c := setTrigger "jump" true (setTrigger "ghost" true loaded) in
  getTrigger "jump" loaded = (Some (VBool false), loaded) ∧
  getTrigger "jump" c = (Some (VBool true), c) ∧
  (update lc dt c).2 = Some TypeError ∧
  (getTrigger "jump" (update lc dt c).1).1 = Some (VBool true) ∧
  ∃ rest, _consumedTriggers (update lc dt c).1 = "ghost" :: "jump" :: rest.
Proof.
  cbv zeta. split; [reflexivity|]. split; [reflexivity|].
  set (c := setTrigger "jump" true _).
  unfold update.
  destruct (update_layers_frame lc (dt * _speed c)%Q (_layers c) c)
    as [extra Hc1].
  destruct (update_layers lc (dt * _speed c)%Q (_layers c) c) as [ls c1].
  simpl in Hc1. subst c1.
  set (c1 := with_layers ls _).
  change (_consumedTriggers c1) with ("ghost" :: "jump" :: extra).
  rewrite reset_consumed_missing by reflexivity.
  split; [reflexivity|]. split; [reflexivity|]. by exists extra.
Qed.

(** The same call on a component whose consumed-triggers set names
    parameters only. *)
Definition consumed_known (c : Anim.t) : Prop :=
  Forall (λ t, is_Some (_parameters c !! t)) (_consumedTriggers c).

(** A controller that marks only parameters of the map it is given. *)
Definition consumes_known
    (lc : Layer → Q → gmap string Param → list string) : Prop :=
  ∀ l dt ps, Forall (λ t, is_Some (ps !! t)) (lc l dt ps).

(** What the reset loop does to the parameter map. *)
Definition reset_all (ts : list string) (ps : gmap string Param)
    : gmap string Param :=
  foldl (λ ps t, alter cleared t ps) ps ts.

Lemma cleared_idemp p : cleared (cleared p) = cleared p.
Proof. reflexivity. Qed.

Lemma reset_all_lookup ts ps t :
  reset_all ts ps !! t
  = if bool_decide (t ∈ ts) then cleared <$> ps !! t else ps !! t.
Proof.
  unfold reset_all.
  revert ps. induction ts as [|t' ts IH]; intros ps; cbn [foldl].
  - rewrite bool_decide_eq_false_2; [done|]. apply not_elem_of_nil.
  - rewrite IH. destruct (decide (t' = t)) as [->|Hne].
    + rewrite lookup_alter_eq.
      rewrite (bool_decide_eq_true_2 (t ∈ t :: ts)) by (apply elem_of_cons; by left).
      case_bool_decide; [|done].
      destruct (ps !! t); simpl; [|done]. by rewrite cleared_idemp.
    + rewrite lookup_alter_ne by done.
      case_bool_decide as H1; case_bool_decide as H2; try done.
      * exfalso. apply H2. apply elem_of_cons. by right.
      * exfalso. apply elem_of_cons in H2 as [->|?]; done.
Qed.
Lemma update_layers_consumed (P : string → Prop) lc dt ls c :
  (∀ l, Forall P (lc l dt (_parameters c))) →
  Forall P (_consumedTriggers c) →
  Forall P (_consumedTriggers (update_layers lc dt ls c).2).
Proof.
  revert c. induction ls as [|l ls IH]; intros c Hlc Hc; simpl; [done|].
  match goal with |- context [update_layers lc dt ls ?c1] =>
    specialize (IH c1); destruct (update_layers lc dt ls c1) as [ls' c2] end.
  simpl in *. apply IH; [done|].
  specialize (Hlc l). revert Hc Hlc.
  generalize (_consumedTriggers c). generalize (lc l dt (_parameters c)).
  intros names. induction names as [|x names IHn]; intros s Hs Hn; simpl.
  - done.
  - apply Forall_cons in Hn as [Hx Hn]. apply IHn; [|done].
    unfold set_add. case_bool_decide; [done|].
    apply Forall_app. split; [done|]. by constructor.
Qed.

Lemma alter_cleared_insert t (param : Param) (ps : gmap string Param) :
  ps !! t = Some param → <[t := cleared param]> ps = alter cleared t ps.
Proof.
  intros H. apply map_eq. intros k. destruct (decide (t = k)) as [->|Hne].
  - by rewrite lookup_insert_eq, lookup_alter_eq, H.
  - by rewrite lookup_insert_ne, lookup_alter_ne.
Qed.

(** On known names the reset loop runs to its end. *)
Lemma reset_consumed_known ts c :
  Forall (λ t, is_Some (_parameters c !! t)) ts →
  reset_consumed ts c
  = (with_parameters (reset_all ts (_parameters c))
       (emits (TriggerReset <$> ts) c), None).
Proof.
  revert c. induction ts as [|t ts IH]; intros c Hts.
  - simpl. destruct c; unfold with_parameters, emits; simpl.
    by rewrite app_nil_r.
  - apply Forall_cons in Hts as [[param Ht] Hts].
    cbn [reset_consumed]. rewrite Ht.
    change {| param_type := param_type param; param_value := VBool false |}
      with (cleared param).
    rewrite IH; cycle 1.
    { simpl. eapply Forall_impl; [exact Hts|]. intros t' Ht'. simpl in Ht'.
      rewrite (alter_cleared_insert _ _ _ Ht), lookup_alter.
      case_decide; [subst; by rewrite fmap_is_Some|done]. }
    unfold with_parameters, emits, emit. simpl.
    rewrite (alter_cleared_insert _ _ _ Ht), <- app_assoc. reflexivity.
Qed.

Lemma set_add_elem t s : t ∈ set_add t s.
Proof.
  unfold set_add. case_bool_decide; [done|].
  apply elem_of_app. right. apply elem_of_cons. by left.
Qed.

(** X3: a single-frame trigger on a component whose consumed-triggers set
    names parameters only, with a controller that marks parameters only: after
    [setTrigger(t, true)] one [update] returns, leaves [t] false and the
    set empty, and every layer was updated before the first reset.  A
    second [update] in which no layer consumes a trigger changes no
    parameter. *)
Lemma update_clears_single_frame_trigger lc dt t p (c : Anim.t) :
  consumes_known lc →
  consumed_known c →
  _parameters c !! t = Some p →
  param_type p = ANIM_PARAMETER_TRIGGER →
  ∃ c2 resets,
    update lc dt (setTrigger t true c) = (c2, None) ∧
    _parameters c2 !! t
    = Some {| param_type := ANIM_PARAMETER_TRIGGER;
              param_value := VBool false |} ∧
    _consumedTriggers c2 = [] ∧
    t ∈ resets ∧
    effects c2
    = effects c
      ++ ((λ l, LayerUpdated (layer_name l) (dt * _speed c)%Q) <$> _layers c)
      ++ (TriggerReset <$> resets) ∧
    ((∀ l, lc l (dt * _speed c)%Q (_parameters c2) = []) →
     ∃ c3, update lc dt c2 = (c3, None) ∧
           _parameters c3 = _parameters c2 ∧
           _consumedTriggers c3 = []).
Proof.
  intros Hlc Hc Ht Hty.
  assert (Hc1 : setTrigger t true c
                = with_consumed (set_add t (_consumedTriggers c))
                    (with_parameters
                       (<[t := {| param_type := param_type p;
                                  param_value := VBool true |}]>
                          (_parameters c)) c)).
  { unfold setTrigger, setParameterValue. rewrite Ht.
    by rewrite bool_decide_eq_true_2. }
  rewrite Hc1. clear Hc1. set (c1 := with_consumed _ _).
  assert (Hdom : ∀ k, is_Some (_parameters c !! k)
                      → is_Some (_parameters c1 !! k)).
  { intros k Hk. simpl. rewrite lookup_insert.
    case_decide; [done|exact Hk]. }
  assert (Hknown1 : Forall (λ k, is_Some (_parameters c1 !! k))
                      (_consumedTriggers c1)).
  { change (_consumedTriggers c1) with (set_add t (_consumedTriggers c)).
    unfold set_add. case_bool_decide.
    - eapply Forall_impl; [exact Hc|]. exact Hdom.
    - apply Forall_app. split.
      + eapply Forall_impl; [exact Hc|]. exact Hdom.
      + constructor; [|constructor]. apply Hdom. by rewrite Ht. }
  unfold update.
  pose proof (update_layers_consumed
                (λ k, is_Some (_parameters c1 !! k)) lc
                (dt * _speed c1)%Q (_layers c1) c1 (λ l, Hlc _ _ _) Hknown1)
    as Hknown2.
  destruct (update_layers_frame lc (dt * _speed c1)%Q (_layers c1) c1)
    as [extra Hframe].
  destruct (update_layers lc (dt * _speed c1)%Q (_layers c1) c1) as [ls c1'].
  simpl in Hframe, Hknown2. subst c1'.
  set (c1' := with_layers ls _). simpl in Hknown2.
  rewrite reset_consumed_known by exact Hknown2.
  eexists _, (_consumedTriggers c1 ++ extra).
  split; [reflexivity|]. simpl.
  split.
  { rewrite reset_all_lookup, bool_decide_eq_true_2.
    - rewrite lookup_insert_eq. simpl.
      unfold cleared. simpl. by rewrite Hty.
    - apply elem_of_app. left. apply set_add_elem. }
  split; [reflexivity|]. split.
  { apply elem_of_app. left. apply set_add_elem. }
  split.
  { by rewrite <- app_assoc. }
  intros Hquiet.
  set (c2 := with_consumed [] _) in *.
  unfold update.
  match goal with |- context [update_layers lc ?d ?l c2] =>
    pose proof (update_layers_consumed (λ _, False) lc d l c2) as Hnone;
    destruct (update_layers_frame lc d l c2) as [extra2 Hframe2];
    destruct (update_layers lc d l c2) as [ls2 c2'] end.
  simpl in Hframe2, Hnone. subst c2'.
  assert (Hfalse : Forall (λ _ : string, False) extra2).
  { apply Hnone; [|constructor].
    intros l. simpl. rewrite Hquiet. constructor. }
  assert (extra2 = []) as ->.
  { destruct extra2 as [|k extra2]; [done|].
    by apply Forall_cons in Hfalse as [[] _]. }
  eexists. split; [reflexivity|]. by split.
Qed.

End AnimFacts.

(** ** ModelComponent: a model that already has an owner *)

Section ModelFacts.

Import Model.

(** C9: assigning to [model] an instance that is flagged immutable (owned
    by a model component) and is not the component's own model is
    rejected: the setter returns, the one thing it does is report the
    error, and the models, the components (so the component's previous
    model and what hangs on it) and the scene layers stay as they were. *)
Theorem set_model_rejects_owned who value (m : Instance) (c : Model.t)
    (w : World) :
  components w !! who = Some c →
  models w !! value = Some m →
  _immutable m = true →
  _model c ≠ Some value →
  ∃ w', set_model who (Some value) w = Ok w' ∧
        effects w' = effects w ++ [ErrorMultipleOwners] ∧
        models w' = models w ∧
        components w' = components w ∧
        scene_layers w' = scene_layers w ∧
        get_model who w' = _model c.
Proof.
  intros Hc Hm Himm Hne. unfold set_model. rewrite Hc.
  rewrite bool_decide_eq_false_2 by done.
  simpl. rewrite Hm. simpl. rewrite Himm.
  eexists. split; [reflexivity|]. repeat split.
  unfold get_model. simpl. by rewrite Hc.
Qed.

(** Two model components and one model: the first takes the model, the
    second is refused. *)
Definition plain_entity (g : string) : Entity :=
  {| guid := g; entity_enabled := true; animation := false; anim := None |}.

Definition fresh_component (g : string) : Model.t :=
  {| entity := plain_entity g; enabled := true; _type := "asset";
     _model := None; _castShadows := true; _receiveShadows := true;
     _isStatic := false; _lightmapped := false; _customAabb := None;
     _layers := [0%nat]; _clonedModel := false |}.

Definition box_model : Instance :=
  {| _immutable := false;
     meshInstances := [{| castShadow := false; receiveShadow := false;
                          isStatic := false; customAabb := None |}];
     graph := 7; _entity := None; destroyed := false |}.

Definition two_components : World :=
  {| models := {[ 1%nat := box_model ]};
     components := {[ "a" := fresh_component "a"; "b" := fresh_component "b" ]};
     scene_layers := [0%nat]; effects := [] |}.

Definition owned_by_a : World :=
  match set_model "a" (Some 1%nat) two_components with
  | Ok w => w
  | Throw _ => two_components
  end.

Example a_owns_the_model :
  get_model "a" owned_by_a = Some 1%nat ∧
  _immutable <$> models owned_by_a !! 1%nat = Some true ∧
  effects owned_by_a
  = [EntityAddChild "a" 7; LayerAddMeshInstances 0 1; SetMapping "a"].
Proof. repeat split. Qed.

Lemma set_model_rejects_owned_witness :
  ∃ w', set_model "b" (Some 1%nat) owned_by_a = Ok w' ∧
        effects w' = effects owned_by_a ++ [ErrorMultipleOwners] ∧
        models w' = models owned_by_a ∧
        components w' = components owned_by_a ∧
        scene_layers w' = scene_layers owned_by_a ∧
        get_model "b" w' = _model (fresh_component "b").
Proof.
  eapply (set_model_rejects_owned "b" 1%nat _ (fresh_component "b") owned_by_a).
  - reflexivity.
  - reflexivity.
  - reflexivity.
  - discriminate.
Defined.

End ModelFacts.

(** ** Layout: sanitised sizes, line splitting, stretching *)

Section LayoutFacts.

Import Layout.
Open Scope Q_scope.

(** *** The records of [getElementSizeProperties] *)

Definition size_ok (s : Size) : Prop :=
  0 <= minWidth s ∧ 0 <= minHeight s ∧
  xle (minWidth s) (maxWidth s) ∧ xle (minHeight s) (maxHeight s) ∧
  minWidth s <= width s ∧ xle (width s) (maxWidth s) ∧
  minHeight s <= height s ∧ xle (height s) (maxHeight s).

Lemma xle_xmax x q : xle q (xmax x q).
Proof. destruct x; simpl; [apply Q.le_max_r|exact I]. Qed.

Lemma clamp_lower value min max : xle min max → min <= clamp value min max.
Proof.
  unfold clamp. destruct max as [m|]; simpl; intros H.
  - apply Q.min_glb; [apply Q.le_max_r|exact H].
  - apply Q.le_max_r.
Qed.

Lemma clamp_upper value min max : xle (clamp value min max) max.
Proof.
  unfold clamp. destruct max as [m|]; simpl; [apply Q.le_min_r|exact I].
Qed.

Lemma elementSizeProperties_ok element : size_ok (elementSizeProperties element).
Proof.
  unfold size_ok, elementSizeProperties. simpl.
  repeat split; try apply Q.le_max_r; try apply xle_xmax;
    try apply clamp_upper; apply clamp_lower, xle_xmax.
Qed.

(** C10: every record [getElementSizeProperties] computes has
    non-negative minima, maxima at least the minima, and ideal width and
    height within [min, max] -- for all stored properties: numbers of any
    sign and order, [null], [undefined], with or without a layout-child
    component, enabled or not. *)
Theorem getElementSizeProperties_sanitized (elements : list Element) :
  Forall size_ok (getElementSizeProperties elements).
Proof.
  unfold getElementSizeProperties. apply Forall_fmap, Forall_true.
  intros element. apply elementSizeProperties_ok.
Qed.

(** An element with a negative minimum, a maximum below it, no width, and
    a layout-child component that overrides the height with a value above
    the maximum. *)
Definition no_props : Props :=
  {| p_minWidth := Undefined; p_minHeight := Undefined;
     p_maxWidth := Undefined; p_maxHeight := Undefined;
     p_width := Undefined; p_height := Undefined;
     p_fitWidthProportion := Undefined; p_fitHeightProportion := Undefined |}.

Definition odd_element : Element :=
  {| element_id := 0;
     layoutchild :=
       Some {| lc_enabled := true; excludeFromLayout := false;
               lc_props :=
                 {| p_minWidth := Null; p_minHeight := Undefined;
                    p_maxWidth := Undefined; p_maxHeight := Number (Fin 40);
                    p_width := Undefined; p_height := Number 90;
                    p_fitWidthProportion := Undefined;
                    p_fitHeightProportion := Undefined |} |};
     el_props :=
       {| p_minWidth := Number (-5); p_minHeight := Number 10;
          p_maxWidth := Number (Fin (-20)); p_maxHeight := Null;
          p_width := Null; p_height := Number 30;
          p_fitWidthProportion := Null; p_fitHeightProportion := Undefined |};
     pivot := {| x := 0; y := 0 |};
     anchor := {| x4 := 0; y4 := 0; z4 := 0; w4 := 0 |} |}.

Example odd_element_sizes :
  let s := elementSizeProperties odd_element in
  minWidth s == 0 ∧ maxWidth s = Fin (Qmax (-20) (Qmax (-5) 0)) ∧
  width s == 0 ∧
  minHeight s == 10 ∧ maxHeight s = Fin (Qmax 40 (Qmax 10 0)) ∧
  height s == 40.
Proof. repeat split. Qed.

(** *** Splitting into lines *)

Section SplitLines.

Variable a : Axis.
Variable options : Options.

Let gap : Q := axis a (spacing options).






Lemma Qgtb_true x y : Qgtb x y = true ↔ y < x.
Proof.
  unfold Qgtb. rewrite negb_true_iff, <- not_true_iff_false, Qle_bool_iff.
  split; [apply Qnot_le_lt|apply Qlt_not_le].
Qed.

Lemma Qgtb_false x y : Qgtb x y = false ↔ x <= y.
Proof. unfold Qgtb. by rewrite negb_false_iff, Qle_bool_iff. Qed.













End SplitLines.


(** Boxes of a given width in a wrapping horizontal group 100 wide. *)
Definition box (id : nat) (w : Q) : Element :=
  {| element_id := id; layoutchild := None;
     el_props :=
       {| p_minWidth := Undefined; p_minHeight := Undefined;
          p_maxWidth := Undefined; p_maxHeight := Undefined;
          p_width := Number w; p_height := Number 10;
          p_fitWidthProportion := Undefined;
          p_fitHeightProportion := Undefined |};
     pivot := {| x := 0; y := 0 |};
     anchor := {| x4 := 0; y4 := 0; z4 := 0; w4 := 0 |} |}.

Definition wrapping (f : Fitting) (gap : Q) : Options :=
  {| orientation := ORIENTATION_HORIZONTAL; wrap := true;
     widthFitting := f; heightFitting := FITTING_NONE;
     spacing := {| x := gap; y := 0 |};
     containerSize := {| x := 110; y := 50 |};
     padding := {| x4 := 5; y4 := 0; z4 := 5; w4 := 0 |};
     alignment := {| x := 0; y := 0 |};
     reverseX := false; reverseY := false |}.


(** The boundary: 40 + 60 is exactly the 100 available and stays on one
    line; one more element starts the second line.  With spacing the
    spacing counts. *)
Example split_at_the_boundary :
  splitLines AXIS_X (wrapping FITTING_NONE 0) [box 1 40; box 2 60]
  = [[box 1 40; box 2 60]] ∧
  splitLines AXIS_X (wrapping FITTING_STRETCH 0) [box 1 40; box 2 60; box 3 1]
  = [[box 1 40; box 2 60]; [box 3 1]] ∧
  splitLines AXIS_X (wrapping FITTING_BOTH 1) [box 1 40; box 2 60]
  = [[box 1 40]; [box 2 60]].
Proof. repeat split. Qed.

(** SHRINK breaks after the element that overran; a single oversize
    element never leaves an empty line behind in either mode. *)
Example split_after_overrun :
  splitLines AXIS_X (wrapping FITTING_SHRINK 0) [box 1 40; box 2 61; box 3 1]
  = [[box 1 40; box 2 61]; [box 3 1]] ∧
  splitLines AXIS_X (wrapping FITTING_NONE 0) [box 1 40; box 2 61; box 3 1]
  = [[box 1 40]; [box 2 61; box 3 1]] ∧
  splitLines AXIS_X (wrapping FITTING_NONE 0) [box 1 200; box 2 1]
  = [[box 1 200]; [box 2 1]] ∧
  splitLines AXIS_X (wrapping FITTING_SHRINK 0) [box 1 40; box 2 61]
  = [[box 1 40; box 2 61]].
Proof. repeat split. Qed.

(** *** Sums and the traversal order *)






Lemma sumValues_fmap {A B} (f : A → B) (get : B → Q) (items : list A) :
  sumValues get (f <$> items) = sumValues (λ item, get (f item)) items.
Proof.
  unfold sumValues. generalize 0.
  induction items as [|item items IH]; intros acc; simpl; [done|apply IH].
Qed.













(** *** The sums of remaining proportions *)












(** *** Normalised proportions and the adjustment of one element *)








(** *** The loop of [stretchSizesToFitContainer] *)












Lemma getElementSizeProperties_length line :
  length (getElementSizeProperties line) = length line.
Proof. apply length_fmap. Qed.





(** Three elements 50 wide in a group 300 wide; the first may grow to 60
    at most, the others have no maximum. *)
Definition sized (id : nat) (w : Q) (mx : raw xnum) : Element :=
  {| element_id := id; layoutchild := None;
     el_props :=
       {| p_minWidth := Undefined; p_minHeight := Undefined;
          p_maxWidth := mx; p_maxHeight := Undefined;
          p_width := Number w; p_height := Number 10;
          p_fitWidthProportion := Undefined;
          p_fitHeightProportion := Undefined |};
     pivot := {| x := 0; y := 0 |};
     anchor := {| x4 := 0; y4 := 0; z4 := 0; w4 := 0 |} |}.

Definition stretching : Options :=
  {| orientation := ORIENTATION_HORIZONTAL; wrap := false;
     widthFitting := FITTING_STRETCH; heightFitting := FITTING_NONE;
     spacing := {| x := 0; y := 0 |};
     containerSize := {| x := 300; y := 50 |};
     padding := {| x4 := 0; y4 := 0; z4 := 0; w4 := 0 |};
     alignment := {| x := 0; y := 0 |};
     reverseX := false; reverseY := false |}.

Definition capped_line : list Element :=
  [sized 1 50 (Number (Fin 60)); sized 2 50 Undefined; sized 3 50 Undefined].


(** The line above, computed: the first element stops at its maximum 60,
    and the 140 it leaves go to the other two in equal parts; the line is
    300 wide in the end. *)
Example capped_line_sizes :
  ∃ s1 s2 s3,
    calculateLineSizesOnAxisA AXIS_X stretching capped_line = Ok [s1; s2; s3] ∧
    width s1 == 60 ∧ width s2 == 120 ∧ width s3 == 120.
Proof. eexists _, _, _. split; [reflexivity|]. repeat split. Qed.

End LayoutFacts.

(** * Further properties of the modelled code *)

(** ** Component: reading back, and the order of notifications *)

Section ComponentMore.

Import Component.

Lemma accessor_get_extend tr q c :
  accessor_get q (extend tr c) = accessor_get q c.
Proof. reflexivity. Qed.

Lemma accessor_get_write_data p q v d c :
  data c = Some d →
  accessor_get q (write_data p v c)
  = Ok (default VUndefined (<[p := v]> d !! q)).
Proof.
  intros Hd. unfold accessor_get. by rewrite (data_write_data _ _ _ _ Hd).
Qed.

(** X1: An assignment through the accessor can be read back, and it leaves the
    other properties, the entity, the accessors and the registrations as
    they were. *)
Theorem assign_then_get n obs p v d (c : Component.t) :
  callbacks c = base_callbacks ++ observer_callbacks obs →
  p ∈ accessors c →
  data c = Some d →
  ∃ c', assign (S (S n)) p v c = Ok c' ∧
        accessor_get p c' = Ok v ∧
        (∀ q, q ≠ p → accessor_get q c' = accessor_get q c) ∧
        entity c' = entity c ∧
        accessors c' = accessors c ∧
        callbacks c' = callbacks c ∧
        own c' = own c.
Proof.
  intros Hcb Hp Hd.
  rewrite (assign_accessor _ _ _ _ Hp), (accessor_set_trace _ obs _ _ d) by done.
  eexists. split; [reflexivity|].
  rewrite accessor_get_extend, (accessor_get_write_data _ _ _ d) by done.
  split; [by rewrite lookup_insert_eq|]. split; [|done].
  intros q Hq. rewrite accessor_get_extend.
  rewrite (accessor_get_write_data _ _ _ d) by done.
  rewrite lookup_insert_ne by done. unfold accessor_get. by rewrite Hd.
Qed.

Lemma assign_then_get_witness :
  ∃ c', assign 2 "value" (VNum 3) scrollbar = Ok c' ∧
        accessor_get "value" c' = Ok (VNum 3) ∧
        (∀ q, q ≠ "value" → accessor_get q c' = accessor_get q scrollbar) ∧
        entity c' = entity scrollbar ∧
        accessors c' = accessors scrollbar ∧
        callbacks c' = callbacks scrollbar ∧
        own c' = own scrollbar.
Proof.
  apply (assign_then_get 0 [] "value" (VNum 3) scrollbar_data scrollbar).
  - reflexivity.
  - apply (bool_decide_unpack _). exact I.
  - reflexivity.
Defined.

(** The observers registered under a name, as the notifications they get. *)
Definition notifications (name : string) (obs : list (string * nat))
    (args : list value) : list action :=
  (λ o, Notified o.2 args) <$> filter (λ o, o.1 = name) obs.

Lemma passive_actions_observers e args name obs :
  concat (passive_actions e args <$> listeners name (observer_callbacks obs))
  = notifications name obs args.
Proof.
  unfold listeners, observer_callbacks, notifications.
  induction obs as [|o obs IH]; [done|].
  cbn [fmap list_fmap]. rewrite !filter_cons. cbn [fst].
  destruct (decide (o.1 = name)); [|exact IH].
  cbn [fmap list_fmap concat snd passive_actions app]. f_equal. exact IH.
Qed.

(** X2: An assignment to a property other than [enabled] runs no hook; it
    fires [set], then [set_<p>], then calls the observers of [set_<p>] and
    after them the observers of [set], each once per registration and with
    the name, the old and the new value. *)
Theorem assign_notifies_in_order n obs p v d (c : Component.t) :
  callbacks c = base_callbacks ++ observer_callbacks obs →
  p ∈ accessors c →
  data c = Some d →
  p ≠ "enabled" →
  let args := [VStr p; default VUndefined (d !! p); v] in
  ∃ c', assign (S (S n)) p v c = Ok c' ∧
        trace c'
        = trace c
          ++ [Fired "set" args; Fired ("set_" +:+ p) args]
          ++ notifications ("set_" +:+ p) obs args
          ++ notifications "set" obs args ∧
        hooks (drop (length (trace c)) (trace c')) = [].
Proof.
  intros Hcb Hp Hd Hne args.
  rewrite (assign_accessor _ _ _ _ Hp), (accessor_set_trace _ obs _ _ d) by done.
  fold args. eexists. split; [reflexivity|].
  assert (Htrace : assignment_trace (entity c) obs p args
                   = [Fired "set" args; Fired ("set_" +:+ p) args]
                     ++ notifications ("set_" +:+ p) obs args
                     ++ notifications "set" obs args).
  { unfold assignment_trace. rewrite bool_decide_eq_false_2 by done.
    cbn [app]. by rewrite !passive_actions_observers. }
  cbn [trace extend write_data]. split; [by rewrite Htrace|].
  rewrite drop_app_length, hooks_assignment_trace.
  by rewrite bool_decide_eq_false_2.
Qed.

Definition watched : Component.t :=
  on "set" (Observer 2) (on "set_value" (Observer 1) (on "set" (Observer 0) scrollbar)).

Lemma assign_notifies_in_order_witness :
  let args := [VStr "value"; default VUndefined (scrollbar_data !! "value"); VNum 3] in
  ∃ c', assign 2 "value" (VNum 3) watched = Ok c' ∧
        trace c'
        = trace watched
          ++ [Fired "set" args; Fired ("set_" +:+ "value") args]
          ++ notifications ("set_" +:+ "value")
               [("set", 0%nat); ("set_value", 1%nat); ("set", 2%nat)] args
          ++ notifications "set"
               [("set", 0%nat); ("set_value", 1%nat); ("set", 2%nat)] args ∧
        hooks (drop (length (trace watched)) (trace c')) = [].
Proof.
  apply (assign_notifies_in_order 0
           [("set", 0%nat); ("set_value", 1%nat); ("set", 2%nat)]
           "value" (VNum 3) scrollbar_data watched).
  - reflexivity.
  - apply (bool_decide_unpack _). exact I.
  - reflexivity.
  - discriminate.
Defined.

End ComponentMore.

(** ** AnimComponent: the parameter map under accessors and updates *)

Section AnimParameters.

Import Anim.

Lemma consume_set_triggers_known : consumes_known consume_set_triggers.
Proof.
  intros l dt ps. apply Forall_forall. intros t Ht.
  unfold consume_set_triggers in Ht.
  apply list_elem_of_fmap in Ht as [[k p] [-> Hkp]].
  apply elem_of_map_to_list in Hkp. simpl. by rewrite Hkp.
Qed.

Lemma update_clears_single_frame_trigger_witness :
  ∃ c2 resets,
    update consume_set_triggers (1 # 60) (setTrigger "jump" true loaded)
    = (c2, None) ∧
    _parameters c2 !! "jump"
    = Some {| param_type := ANIM_PARAMETER_TRIGGER;
              param_value := VBool false |} ∧
    _consumedTriggers c2 = [] ∧
    "jump" ∈ resets ∧
    effects c2
    = effects loaded
      ++ ((λ l, LayerUpdated (layer_name l) ((1 # 60) * _speed loaded)%Q)
            <$> _layers loaded)
      ++ (TriggerReset <$> resets) ∧
    ((∀ l, consume_set_triggers l ((1 # 60) * _speed loaded)%Q (_parameters c2) = []) →
     ∃ c3, update consume_set_triggers (1 # 60) c2 = (c3, None) ∧
           _parameters c3 = _parameters c2 ∧
           _consumedTriggers c3 = []).
Proof.
  apply (update_clears_single_frame_trigger consume_set_triggers (1 # 60)
           "jump" {| param_type := ANIM_PARAMETER_TRIGGER;
                     param_value := VBool false |} loaded).
  - exact consume_set_triggers_known.
  - constructor.
  - reflexivity.
  - reflexivity.
Defined.

(** The public operations that write parameters. *)
Inductive call :=
| SetFloat (name : string) (v : value)
| SetInteger (name : string) (v : value)
| SetBoolean (name : string) (v : value)
| SetTrigger (name : string) (singleFrame : bool)
| ResetTrigger (name : string)
| Update (dt : Q).

Definition run (lc : Layer → Q → gmap string Param → list string)
    (op : call) (c : Anim.t) : Anim.t :=
  match op with
  | SetFloat name v => setFloat name v c
  | SetInteger name v => setInteger name v c
  | SetBoolean name v => setBoolean name v c
  | SetTrigger name singleFrame => setTrigger name singleFrame c
  | ResetTrigger name => resetTrigger name c
  | Update dt => (update lc dt c).1
  end.

(** The type of the parameter stored under a name, if there is one. *)
Definition type_of (name : string) (c : Anim.t) : option ParamType :=
  param_type <$> _parameters c !! name.

Lemma setParameterValue_type_of name type v c k :
  type_of k (setParameterValue name type v c) = type_of k c.
Proof.
  unfold type_of, setParameterValue.
  destruct (_parameters c !! name) as [param|] eqn:E; [|done].
  case_bool_decide; [|done]. simpl.
  destruct (decide (name = k)) as [->|Hne].
  - by rewrite lookup_insert_eq, E.
  - by rewrite lookup_insert_ne.
Qed.

Lemma reset_consumed_type_of ts c k :
  type_of k (reset_consumed ts c).1 = type_of k c.
Proof.
  revert c. induction ts as [|t ts IH]; intros c; cbn [reset_consumed]; [done|].
  destruct (_parameters c !! t) as [param|] eqn:E; [|done].
  rewrite IH. unfold type_of. simpl.
  destruct (decide (t = k)) as [->|Hne].
  - by rewrite lookup_insert_eq, E.
  - by rewrite lookup_insert_ne.
Qed.

Lemma update_type_of lc dt c k : type_of k (update lc dt c).1 = type_of k c.
Proof.
  unfold update.
  destruct (update_layers_frame lc (dt * _speed c)%Q (_layers c) c)
    as [extra Hframe].
  destruct (update_layers lc (dt * _speed c)%Q (_layers c) c) as [ls c1].
  simpl in Hframe. subst c1.
  match goal with |- context [reset_consumed ?ts ?c1] =>
    pose proof (reset_consumed_type_of ts c1 k) as H;
    destruct (reset_consumed ts c1) as [c2 [e|]] end; exact H.
Qed.

(** X4: No typed setter and no update adds a parameter, removes one, or
    changes the type of one: whatever a program calls, in whatever order,
    the names and their types stay those the state graph declared. *)
Theorem parameter_types_are_kept lc (ops : list call) (c : Anim.t) k :
  type_of k (foldl (λ c op, run lc op c) c ops) = type_of k c.
Proof.
  revert c. induction ops as [|op ops IH]; intros c; cbn [foldl]; [done|].
  rewrite IH. destruct op as [name v|name v|name v|name b|name|dt]; cbn [run].
  - apply setParameterValue_type_of.
  - unfold setInteger. destruct (is_integer v); [|done].
    apply setParameterValue_type_of.
  - apply setParameterValue_type_of.
  - unfold setTrigger. destruct b; [|apply setParameterValue_type_of].
    unfold type_of. cbn [_parameters with_consumed].
    apply setParameterValue_type_of.
  - apply setParameterValue_type_of.
  - apply update_type_of.
Qed.

(** *** Writing and reading back *)

(** A setter of the parameter's own type stores the value, which the getter
    of that type returns; it logs nothing and leaves every other parameter
    and the consumed-triggers set alone. *)
Lemma setParameterValue_stores name type v p (c : Anim.t) :
  _parameters c !! name = Some p →
  param_type p = type →
  let c' := setParameterValue name type v c in
  getParameterValue name type c' = (Some v, c') ∧
  (∀ k, k ≠ name → _parameters c' !! k = _parameters c !! k) ∧
  effects c' = effects c ∧
  _consumedTriggers c' = _consumedTriggers c.
Proof.
  intros Hp Hty. cbv zeta. unfold setParameterValue. rewrite Hp.
  rewrite bool_decide_eq_true_2 by done.
  unfold getParameterValue. cbn [_parameters with_parameters].
  rewrite lookup_insert_eq. cbn [param_type param_value].
  rewrite bool_decide_eq_true_2 by done.
  split; [done|]. split; [|done].
  intros k Hk. by rewrite lookup_insert_ne.
Qed.

Lemma getParameterValue_with_consumed name type ts c :
  (getParameterValue name type (with_consumed ts c)).1
  = (getParameterValue name type c).1.
Proof.
  unfold getParameterValue. cbn [_parameters with_consumed].
  destruct (_parameters c !! name) as [q|]; [|done]. by case_bool_decide.
Qed.

(** X5: [setFloat], [setInteger] with an integer, [setBoolean], [setTrigger]
    and [resetTrigger] on a parameter of their type, read back with the
    getter of that type: the float and the integer as given, the boolean
    coerced, the trigger true after [setTrigger] and false after
    [resetTrigger].  [setInteger] with anything but an integer reports an
    error and stores nothing. *)
Theorem typed_set_then_get name p v (c : Anim.t) :
  _parameters c !! name = Some p →
  (param_type p = ANIM_PARAMETER_FLOAT →
   (getFloat name (setFloat name v c)).1 = Some v) ∧
  (param_type p = ANIM_PARAMETER_INTEGER →
   (getInteger name (setInteger name v c)).1
   = Some (if is_integer v then v else param_value p)) ∧
  (is_integer v = false →
   setInteger name v c = emit ErrorNonInteger c) ∧
  (param_type p = ANIM_PARAMETER_BOOLEAN →
   (getBoolean name (setBoolean name v c)).1 = Some (VBool (truthy v))) ∧
  (param_type p = ANIM_PARAMETER_TRIGGER →
   ∀ singleFrame,
     (getTrigger name (setTrigger name singleFrame c)).1 = Some (VBool true) ∧
     (getTrigger name (resetTrigger name (setTrigger name singleFrame c))).1
     = Some (VBool false)).
Proof.
  intros Hp. repeat split.
  - intros Hty.
    destruct (setParameterValue_stores name _ v p c Hp Hty) as [Hget _].
    unfold getFloat, setFloat. by rewrite Hget.
  - intros Hty. unfold getInteger, setInteger. destruct (is_integer v).
    + destruct (setParameterValue_stores name _ v p c Hp Hty) as [Hget _].
      by rewrite Hget.
    + unfold getParameterValue. cbn [_parameters emit].
      rewrite Hp. by rewrite bool_decide_eq_true_2.
  - intros Hv. unfold setInteger. by rewrite Hv.
  - intros Hty.
    destruct (setParameterValue_stores name _ (VBool (truthy v)) p c Hp Hty)
      as [Hget _].
    unfold getBoolean, setBoolean. by rewrite Hget.
  - pose proof (setParameterValue_stores name _ (VBool true) p c Hp H) as [Hget _].
    unfold getTrigger, setTrigger. destruct singleFrame; [|by rewrite Hget].
    by rewrite getParameterValue_with_consumed, Hget.
  - assert (Hq : _parameters (setTrigger name singleFrame c) !! name
                 = Some {| param_type := param_type p; param_value := VBool true |}).
    { unfold setTrigger, setParameterValue. rewrite Hp.
      rewrite bool_decide_eq_true_2 by done.
      destruct singleFrame; cbn [_parameters with_consumed with_parameters];
        by rewrite lookup_insert_eq. }
    destruct (setParameterValue_stores name _ (VBool false) _ _ Hq H) as [Hget _].
    unfold resetTrigger, getTrigger. by rewrite Hget.
Qed.

Lemma typed_set_then_get_witness :
  (param_type {| param_type := ANIM_PARAMETER_FLOAT; param_value := VNum (3 # 2) |}
   = ANIM_PARAMETER_FLOAT →
   (getFloat "speed" (setFloat "speed" (VNum 2) loaded)).1 = Some (VNum 2)) ∧
  (param_type {| param_type := ANIM_PARAMETER_FLOAT; param_value := VNum (3 # 2) |}
   = ANIM_PARAMETER_INTEGER →
   (getInteger "speed" (setInteger "speed" (VNum 2) loaded)).1
   = Some (if is_integer (VNum 2) then VNum 2 else VNum (3 # 2))) ∧
  (is_integer (VNum 2) = false →
   setInteger "speed" (VNum 2) loaded = emit ErrorNonInteger loaded) ∧
  (param_type {| param_type := ANIM_PARAMETER_FLOAT; param_value := VNum (3 # 2) |}
   = ANIM_PARAMETER_BOOLEAN →
   (getBoolean "speed" (setBoolean "speed" (VNum 2) loaded)).1
   = Some (VBool (truthy (VNum 2)))) ∧
  (param_type {| param_type := ANIM_PARAMETER_FLOAT; param_value := VNum (3 # 2) |}
   = ANIM_PARAMETER_TRIGGER →
   ∀ singleFrame,
     (getTrigger "speed" (setTrigger "speed" singleFrame loaded)).1
     = Some (VBool true) ∧
     (getTrigger "speed"
        (resetTrigger "speed" (setTrigger "speed" singleFrame loaded))).1
     = Some (VBool false)).
Proof.
  apply (typed_set_then_get "speed"
           {| param_type := ANIM_PARAMETER_FLOAT; param_value := VNum (3 # 2) |}
           (VNum 2) loaded).
  reflexivity.
Defined.

End AnimParameters.

(** ** AnimComponent: loading any state graph *)

Section AnimLoading.

Import Anim.

(** The layer [_addLayer] creates for a layer of the graph. *)
Definition layer_of (l : LayerDesc) : Layer :=
  {| layer_name := name l; layer_states := state_name <$> states l;
     layer_transitions := transitions l; layer_weight := weight l;
     layer_mask := mask l; layer_blendType := blendType l;
     layer_time := 0%Q |}.

(** The manifest keys of a layer's states, control states left out. *)
Definition state_keys (cs : list string) (L : Layer) : list string :=
  (λ s, layer_name L +:+ ":" +:+ s)
    <$> filter (λ s, is_control_state cs s = false) (layer_states L).

Definition unassigned : AssetEntry := {| asset := None |}.

(** A manifest with an unassigned entry added for each key that has none. *)
Definition extend_manifest (keys : list string) (m : gmap string AssetEntry)
    : gmap string AssetEntry :=
  foldl (λ m k, match m !! k with Some _ => m | None => <[k := unassigned]> m end)
        m keys.

Lemma extend_manifest_lookup keys m key :
  extend_manifest keys m !! key
  = match m !! key with
    | Some e => Some e
    | None => if bool_decide (key ∈ keys) then Some unassigned else None
    end.
Proof.
  unfold extend_manifest.
  revert m. induction keys as [|k keys IH]; intros m; cbn [foldl].
  - rewrite bool_decide_eq_false_2 by apply not_elem_of_nil.
    by destruct (m !! key).
  - rewrite IH. destruct (decide (k = key)) as [->|Hne].
    + rewrite (bool_decide_eq_true_2 (key ∈ key :: keys))
        by (apply elem_of_cons; by left).
      destruct (m !! key) as [e|] eqn:E; [by rewrite E|].
      by rewrite lookup_insert_eq.
    + assert (Hiff : bool_decide (key ∈ k :: keys) = bool_decide (key ∈ keys)).
      { apply bool_decide_ext. rewrite elem_of_cons. split; [|by right].
        by intros [->|?]. }
      rewrite Hiff.
      destruct (m !! k) as [e|] eqn:E; [done|].
      by rewrite lookup_insert_ne.
Qed.

Lemma with_manifest_same c : with_manifest (_animationAssets c) c = c.
Proof. by destruct c. Qed.

Lemma setup_states cs L ss c :
  foldl (setupAnimationAsset cs L) c ss
  = with_manifest
      (extend_manifest
         ((λ s, layer_name L +:+ ":" +:+ s)
            <$> filter (λ s, is_control_state cs s = false) ss)
         (_animationAssets c)) c.
Proof.
  revert c. induction ss as [|s ss IH]; intros c; cbn [foldl].
  - symmetry. apply with_manifest_same.
  - rewrite IH. unfold setupAnimationAsset. rewrite filter_cons.
    destruct (is_control_state cs s) eqn:E.
    + by rewrite decide_False by done.
    + rewrite decide_True by done. cbn [fmap list_fmap].
      unfold extend_manifest at 2. cbn [foldl].
      fold (extend_manifest
              ((λ s, layer_name L +:+ ":" +:+ s)
                 <$> filter (λ s, is_control_state cs s = false) ss)).
      destruct (_animationAssets c !! (layer_name L +:+ ":" +:+ s)); done.
Qed.

Lemma setup_layers cs Ls c :
  foldl (λ acc layer, foldl (setupAnimationAsset cs layer) acc (layer_states layer))
        c Ls
  = with_manifest
      (extend_manifest (Ls ≫= state_keys cs) (_animationAssets c)) c.
Proof.
  revert c. induction Ls as [|L Ls IH]; intros c; cbn [foldl].
  - symmetry. apply with_manifest_same.
  - rewrite IH, setup_states. cbn [mbind list_bind].
    unfold extend_manifest. rewrite foldl_app. reflexivity.
Qed.

(** Every layer can be found under its own name. *)
Definition indexed (c : Anim.t) : Prop :=
  ∀ L, L ∈ _layers c → is_Some (findAnimationLayer (layer_name L) c).

Lemma addLayer_indexed l c : indexed c → indexed (_addLayer l c).
Proof.
  intros Hc L HL. unfold findAnimationLayer. cbn [_layers _layerIndices _addLayer] in *.
  destruct (decide (name l = layer_name L)) as [<-|Hne].
  - rewrite lookup_insert_eq. simpl.
    rewrite lookup_app_r by done. by rewrite Nat.sub_diag.
  - rewrite lookup_insert_ne by done.
    apply elem_of_app in HL as [HL|HL].
    + destruct (Hc L HL) as [L' HL']. unfold findAnimationLayer in HL'.
      destruct (_layerIndices c !! layer_name L) as [i|]; [|done]. simpl in *.
      exists L'. by apply lookup_app_l_Some.
    + apply list_elem_of_singleton in HL. by subst L.
Qed.

Lemma addLayers ls c :
  let c' := foldl (λ acc layer, _addLayer layer acc) c ls in
  _layers c' = _layers c ++ (layer_of <$> ls) ∧
  _animationAssets c' = _animationAssets c ∧
  _parameters c' = _parameters c ∧
  _stateGraph c' = _stateGraph c ∧
  _consumedTriggers c' = _consumedTriggers c ∧
  effects c' = effects c ∧
  (indexed c → indexed c').
Proof.
  revert c. induction ls as [|l ls IH]; intros c; cbn [foldl].
  - cbv zeta. by rewrite app_nil_r.
  - destruct (IH (_addLayer l c)) as (H1 & H2 & H3 & H4 & H5 & H6 & H7).
    cbv zeta. rewrite H1, H2, H3, H4, H5, H6.
    cbn [_layers _addLayer fmap list_fmap]. rewrite <- app_assoc.
    repeat split; try done.
    intros Hc. by apply H7, addLayer_indexed.
Qed.

Lemma emit_emits e es c : emit e (emits es c) = emits (es ++ [e]) c.
Proof. unfold emit, emits. simpl. by rewrite app_assoc. Qed.

Lemma emits_nil c : emits [] c = c.
Proof. destruct c. unfold emits. simpl. by rewrite app_nil_r. Qed.

Lemma removeNodeAnimations_emits n l c :
  ∃ e, removeNodeAnimations n l c = emit e c.
Proof.
  unfold removeNodeAnimations.
  case_bool_decide; [destruct (baseLayer c)|destruct (findAnimationLayer l c)];
    eauto.
Qed.

(** Loading the assets of one state appends effects, and nothing else, once
    the layer can be found under its name. *)
Lemma loadAnimationAsset_emits cs L es c s :
  is_Some (findAnimationLayer (layer_name L) c) →
  ∃ es', loadAnimationAsset cs L (Ok (emits es c)) s = Ok (emits es' c).
Proof.
  intros [L' HL']. unfold loadAnimationAsset. cbn [JS.bind].
  destruct (is_control_state cs s); [by eauto|].
  change (_animationAssets (emits es c)) with (_animationAssets c).
  change (assets (emits es c)) with (assets c).
  assert (Hremove : ∃ es', Ok (removeNodeAnimations s (layer_name L) (emits es c))
                           = Ok (emits es' c)).
  { destruct (removeNodeAnimations_emits s (layer_name L) (emits es c)) as [e ->].
    rewrite emit_emits. eauto. }
  destruct (_animationAssets c !! (layer_name L +:+ ":" +:+ s)) as [[[[|n]|]]|];
    try exact Hremove.
  destruct (assets c !! S n) as [a|]; [|by eauto].
  destruct (resource a).
  - unfold onAnimationAssetLoaded.
    change (findAnimationLayer (layer_name L) (emits es c))
      with (findAnimationLayer (layer_name L) c).
    rewrite HL'. rewrite emit_emits. eauto.
  - rewrite !emit_emits. eauto.
Qed.

Lemma loadAnimationAsset_states cs L es c ss :
  is_Some (findAnimationLayer (layer_name L) c) →
  ∃ es', foldl (loadAnimationAsset cs L) (Ok (emits es c)) ss = Ok (emits es' c).
Proof.
  intros HL. revert es. induction ss as [|s ss IH]; intros es; cbn [foldl].
  - eauto.
  - destruct (loadAnimationAsset_emits cs L es c s HL) as [es1 ->]. apply IH.
Qed.

Lemma loadAnimationAsset_layers cs Ls es c :
  (∀ L, L ∈ Ls → is_Some (findAnimationLayer (layer_name L) c)) →
  ∃ es',
    foldl (λ acc layer, foldl (loadAnimationAsset cs layer) acc (layer_states layer))
          (Ok (emits es c)) Ls
    = Ok (emits es' c).
Proof.
  revert es. induction Ls as [|L Ls IH]; intros es HLs; cbn [foldl].
  - eauto.
  - destruct (loadAnimationAsset_states cs L es c (layer_states L)) as [es1 ->].
    { apply HLs, elem_of_cons. by left. }
    apply IH. intros L' HL'. apply HLs, elem_of_cons. by right.
Qed.

Lemma loadAnimationAssets_emits cs c :
  indexed c → ∃ es, loadAnimationAssets cs c = Ok (emits es c).
Proof.
  intros Hc. unfold loadAnimationAssets.
  destruct (loadAnimationAsset_layers cs (_layers c) [] c Hc) as [es H].
  rewrite emits_nil in H. eauto.
Qed.

Lemma copied_parameters (ps : gmap string Param) :
  (λ p, {| param_type := param_type p; param_value := param_value p |}) <$> ps
  = ps.
Proof.
  apply map_eq. intros k. rewrite lookup_fmap.
  destruct (ps !! k) as [[]|]; reflexivity.
Qed.

(** The component as [loadStateGraph] leaves it before it adds the layers. *)
Definition graph_set (g : StateGraph) (c : Anim.t) : Anim.t :=
  {| _stateGraphAsset := _stateGraphAsset c;
     _animationAssets := _animationAssets c; _speed := _speed c;
     _activate := _activate c; _playing := _playing c;
     _rootBone := _rootBone c; _stateGraph := Some g;
     _layers := []; _layerIndices := _layerIndices c;
     _parameters :=
       (λ p, {| param_type := param_type p; param_value := param_value p |})
         <$> parameters g;
     _targets := _targets c;
     _consumedTriggers := _consumedTriggers c; assets := assets c;
     effects := effects c |}.

Definition layers_added (g : StateGraph) (c : Anim.t) : Anim.t :=
  foldl (λ acc layer, _addLayer layer acc) (graph_set g c) (layers g).

Lemma layers_added_layers g c : _layers (layers_added g c) = layer_of <$> layers g.
Proof.
  unfold layers_added.
  destruct (addLayers (layers g) (graph_set g c)) as (H & _).
  cbv zeta in H. by rewrite H.
Qed.

Lemma layers_added_indexed g c : indexed (layers_added g c).
Proof.
  destruct (addLayers (layers g) (graph_set g c)) as (_ & _ & _ & _ & _ & _ & H).
  apply H. intros L HL. by apply elem_of_nil in HL.
Qed.

(** What [loadStateGraph] returns: the layers added, the manifest extended,
    and some effects. *)
Lemma loadStateGraph_result cs g c :
  ∃ es,
    loadStateGraph cs g c
    = Ok (emits es
            (with_manifest
               (extend_manifest ((layer_of <$> layers g) ≫= state_keys cs)
                  (_animationAssets c))
               (layers_added g c))).
Proof.
  unfold loadStateGraph. fold (graph_set g c). fold (layers_added g c).
  unfold setupAnimationAssets. rewrite setup_layers.
  rewrite layers_added_layers.
  destruct (addLayers (layers g) (graph_set g c)) as (_ & H2 & _).
  fold (layers_added g c) in H2. rewrite H2.
  apply loadAnimationAssets_emits.
  intros L HL. apply (layers_added_indexed g c L HL).
Qed.

(** X6: [loadStateGraph] returns for every graph and every component.  The
    layers are then those of the graph, in its order; the parameters are
    the graph's; an entry the manifest had is kept as it was, and every
    state of the graph that is no control state and had no entry has an
    unassigned one under [<layer>:<state>]; no other key is added. *)
Theorem loadStateGraph_any_graph (cs : list string) (g : StateGraph) (c : Anim.t) :
  ∃ c', loadStateGraph cs g c = Ok c' ∧
        _stateGraph c' = Some g ∧
        _layers c' = layer_of <$> layers g ∧
        _parameters c' = parameters g ∧
        _consumedTriggers c' = _consumedTriggers c ∧
        ∀ key,
          _animationAssets c' !! key
          = match _animationAssets c !! key with
            | Some e => Some e
            | None =>
                if bool_decide (key ∈ (layer_of <$> layers g) ≫= state_keys cs)
                then Some unassigned else None
            end.
Proof.
  destruct (loadStateGraph_result cs g c) as [es ->].
  eexists. split; [reflexivity|].
  cbn [_stateGraph _layers _parameters _consumedTriggers _animationAssets
       emits with_manifest].
  destruct (addLayers (layers g) (graph_set g c)) as (_ & _ & H3 & H4 & H5 & _).
  fold (layers_added g c) in H3, H4, H5.
  rewrite layers_added_layers, H3, H4, H5.
  split; [done|]. split; [done|]. split; [apply copied_parameters|].
  split; [done|]. intros key. apply extend_manifest_lookup.
Qed.

(** *** Finding a layer by name *)

Lemma addLayers_other_name ls c n :
  n ∉ name <$> ls →
  _layerIndices (foldl (λ acc layer, _addLayer layer acc) c ls) !! n
  = _layerIndices c !! n.
Proof.
  revert c. induction ls as [|l ls IH]; intros c Hn; cbn [foldl]; [done|].
  cbn [fmap list_fmap] in Hn. apply not_elem_of_cons in Hn as [Hne Hn].
  rewrite IH by done. cbn [_layerIndices _addLayer].
  by rewrite lookup_insert_ne.
Qed.

Lemma addLayers_last_name ls c i l :
  ls !! i = Some l →
  (∀ j l', ls !! j = Some l' → (i < j)%nat → name l' ≠ name l) →
  _layerIndices (foldl (λ acc layer, _addLayer layer acc) c ls) !! name l
  = Some (length (_layers c) + i)%nat.
Proof.
  revert c i. induction ls as [|l0 ls IH]; intros c i Hi Hlast; [done|].
  cbn [foldl]. destruct i as [|i].
  - injection Hi as ->. rewrite addLayers_other_name.
    + cbn [_layerIndices _addLayer]. rewrite lookup_insert_eq.
      by rewrite Nat.add_0_r.
    + intros Hin. apply list_elem_of_fmap in Hin as (l' & Hname & Hl').
      apply list_elem_of_lookup in Hl' as [j Hj].
      apply (Hlast (S j) l'); [done|lia|done].
  - rewrite (IH (_addLayer l0 c) i); [|done|].
    + cbn [_layers _addLayer]. rewrite length_app. cbn [length]. f_equal. lia.
    + intros j l' Hj Hij. apply (Hlast (S j) l'); [done|lia].
Qed.

(** X7: After [loadStateGraph], a layer name of the graph finds the last layer
    of the graph with that name; a name the graph does not have keeps the
    index it had before the load, if it had one. *)
Theorem findAnimationLayer_after_load (cs : list string) (g : StateGraph)
    (c : Anim.t) :
  ∃ c', loadStateGraph cs g c = Ok c' ∧
        (∀ i l, layers g !! i = Some l →
                (∀ j l', layers g !! j = Some l' → (i < j)%nat
                         → name l' ≠ name l) →
                findAnimationLayer (name l) c' = Some (layer_of l)) ∧
        (∀ n, n ∉ name <$> layers g →
              _layerIndices c' !! n = _layerIndices c !! n).
Proof.
  destruct (loadStateGraph_result cs g c) as [es ->].
  eexists. split; [reflexivity|]. split.
  - intros i l Hi Hlast. unfold findAnimationLayer.
    cbn [_layers _layerIndices emits with_manifest].
    pose proof (addLayers_last_name (layers g) (graph_set g c) i l Hi Hlast)
      as Hidx.
    fold (layers_added g c) in Hidx. rewrite Hidx. cbn [mbind option_bind].
    rewrite layers_added_layers. cbn [_layers graph_set length Nat.add].
    by rewrite list_lookup_fmap, Hi.
  - intros n Hn. cbn [_layerIndices emits with_manifest].
    unfold layers_added. by rewrite addLayers_other_name.
Qed.

(** *** [addLayer] *)

(** X8: [addLayer] returns a layer that the name finds afterwards, and a second
    call with that name returns the same layer and changes nothing.  When
    the name found no layer before, the layer is new: it is appended, has
    that name and the one state [START]. *)
Theorem addLayer_then_find name w m b w' m' b' (c : Anim.t) :
  ∃ layer c',
    addLayer name w m b c = (Some layer, c') ∧
    findAnimationLayer name c' = Some layer ∧
    addLayer name w' m' b' c' = (Some layer, c') ∧
    (findAnimationLayer name c = None →
     _layers c' = _layers c ++ [layer] ∧
     layer_name layer = name ∧
     layer_states layer = ["START"] ∧
     layer_weight layer = w ∧ layer_mask layer = m ∧
     layer_blendType layer = b).
Proof.
  unfold addLayer at 1.
  destruct (findAnimationLayer name c) as [layer|] eqn:E.
  - exists layer, c. split; [done|]. split; [done|].
    split; [|done]. unfold addLayer. by rewrite E.
  - set (desc := Build_LayerDesc _ _ _ _ _ _).
    assert (Hfind : findAnimationLayer name (_addLayer desc c)
                    = Some (layer_of desc)).
    { unfold findAnimationLayer. cbn [_layers _layerIndices _addLayer].
      change (Anim.name desc) with name. rewrite lookup_insert_eq.
      cbn [mbind option_bind]. rewrite lookup_app_r by done.
      by rewrite Nat.sub_diag. }
    exists (layer_of desc), (_addLayer desc c). cbv zeta.
    split.
    { f_equal. cbn [_layers _addLayer]. rewrite lookup_app_r by done.
      by rewrite Nat.sub_diag. }
    split; [exact Hfind|]. split.
    { unfold addLayer. by rewrite Hfind. }
    intros _. repeat split.
Qed.

(** *** A single-frame trigger and the removal of the graph *)

(** X9: [removeStateGraph] empties the parameter map but not the
    consumed-triggers set: after [setTrigger(name, true)] and the removal
    of the graph, [update] throws at the first name of the set. *)
Theorem single_frame_trigger_outlives_graph
    (lc : Layer → Q → gmap string Param → list string) (dt : Q)
    (name : string) (c : Anim.t) :
  let c' := removeStateGraph (setTrigger name true c) in
  name ∈ _consumedTriggers c' ∧
  (update lc dt c').2 = Some TypeError ∧
  _consumedTriggers (update lc dt c').1 = _consumedTriggers c'.
Proof.
  cbv zeta. set (c1 := setTrigger name true c).
  assert (Hin : name ∈ _consumedTriggers c1) by apply set_add_elem.
  split; [exact Hin|].
  unfold update. cbn [_layers removeStateGraph update_layers].
  cbn [_consumedTriggers with_layers removeStateGraph].
  destruct (_consumedTriggers c1) as [|t ts] eqn:E.
  { by apply elem_of_nil in Hin. }
  rewrite reset_consumed_missing by reflexivity.
  cbn [fst snd _consumedTriggers with_layers removeStateGraph]. by rewrite E.
Qed.

(** *** [resetStateGraph] *)

(** X10: With a loaded state-graph asset bound, [resetStateGraph] returns and
    puts the parameters back to the values the graph declares, whatever
    the setters stored since; the layers are rebuilt from the graph and
    the entries of the manifest are kept. *)
Theorem resetStateGraph_restores_defaults (cs : list string) n a g (c : Anim.t) :
  _stateGraphAsset c = Some (S n) →
  assets c !! S n = Some a →
  resource a = Some (GraphResource g) →
  ∃ c', resetStateGraph cs c = Ok c' ∧
        _parameters c' = parameters g ∧
        _layers c' = layer_of <$> layers g ∧
        _stateGraphAsset c' = Some (S n) ∧
        ∀ key e, _animationAssets c !! key = Some e
                 → _animationAssets c' !! key = Some e.
Proof.
  intros Hid Ha Hres. unfold resetStateGraph. rewrite Hid, Ha, Hres.
  destruct (loadStateGraph_result cs g c) as [es ->].
  eexists. split; [reflexivity|].
  cbn [_stateGraphAsset _layers _parameters _animationAssets emits with_manifest].
  destruct (addLayers (layers g) (graph_set g c)) as (_ & _ & H3 & _).
  fold (layers_added g c) in H3.
  rewrite layers_added_layers, H3.
  split; [apply copied_parameters|]. split; [done|]. split.
  - unfold layers_added.
    generalize (graph_set g c) (eq_refl : _stateGraphAsset (graph_set g c) = _stateGraphAsset c).
    rewrite Hid.
    induction (layers g) as [|l ls IH]; intros c0 Hc0; cbn [foldl]; [done|].
    by apply IH.
  - intros key e He. by rewrite extend_manifest_lookup, He.
Qed.

(** A registry with the sample graph as a loaded asset, and a component
    bound to it whose [speed] parameter a setter has changed. *)
Definition graph_registry : gmap nat Asset :=
  {[ 7%nat := {| asset_id := 7; resource := Some (GraphResource sample_graph) |} ]}.

Definition bound : Anim.t :=
  match set_stateGraphAsset control_states (RefId 7) (constructor graph_registry) with
  | Ok c => setFloat "speed" (VNum 4) c
  | Throw _ => constructor graph_registry
  end.

Lemma resetStateGraph_restores_defaults_witness :
  ∃ c', resetStateGraph control_states bound = Ok c' ∧
        _parameters c' = parameters sample_graph ∧
        _layers c' = layer_of <$> layers sample_graph ∧
        _stateGraphAsset c' = Some 7%nat ∧
        ∀ key e, _animationAssets bound !! key = Some e
                 → _animationAssets c' !! key = Some e.
Proof.
  apply (resetStateGraph_restores_defaults control_states 6
           {| asset_id := 7; resource := Some (GraphResource sample_graph) |}
           sample_graph bound); reflexivity.
Defined.

Example bound_speed_changed :
  (getFloat "speed" bound).1 = Some (VNum 4) ∧
  parameters sample_graph !! "speed"
  = Some {| param_type := ANIM_PARAMETER_FLOAT; param_value := VNum (3 # 2) |}.
Proof. split; reflexivity. Qed.

(** *** Assigning the bound asset again *)

(** X11: Assigning to [stateGraphAsset] the id it already holds loads nothing and
    changes no field, but the [change] listener is taken off the asset and
    not put back. *)
Theorem stateGraphAsset_same_id (cs : list string) n a (c : Anim.t) :
  _stateGraphAsset c = Some (S n) →
  assets c !! S n = Some a →
  set_stateGraphAsset cs (RefId (S n)) c = Ok (emit (AssetOff (S n)) c).
Proof.
  intros Hid Ha. unfold set_stateGraphAsset. rewrite Hid, Ha. cbn [JS.bind].
  cbn [assets emit]. rewrite Ha. unfold bindStateGraphAsset.
  cbn [_stateGraphAsset emit]. by rewrite Hid, bool_decide_eq_true_2.
Qed.

Lemma stateGraphAsset_same_id_witness :
  set_stateGraphAsset control_states (RefId 7) bound
  = Ok (emit (AssetOff 7) bound).
Proof.
  apply (stateGraphAsset_same_id control_states 6
           {| asset_id := 7; resource := Some (GraphResource sample_graph) |}
           bound); reflexivity.
Defined.

End AnimLoading.

(** ** ModelComponent: a model has one owner *)

Section ModelOwnership.

Import Model.















(** The setter called on one component after another. *)
Definition set_models (calls : list (string * option nat)) (w : World)
    : result World :=
  foldl (λ acc call, w ←! acc ;; set_model call.1 call.2 w) (Ok w) calls.





Example handed_over :
  (w ← match set_models [("a", Some 1%nat); ("b", Some 1%nat); ("a", None);
                         ("b", Some 1%nat)] two_components with
       | Ok w => Some w
       | Throw _ => None
       end;
   Some (get_model "a" w, get_model "b" w, effects w))
  = Some (None, Some 1%nat,
          [EntityAddChild "a" 7; LayerAddMeshInstances 0 1; SetMapping "a";
           ErrorMultipleOwners;
           LayerRemoveMeshInstances 0 1; EntityRemoveChild "a" 7;
           EntityAddChild "b" 7; LayerAddMeshInstances 0 1; SetMapping "b"]).
Proof. reflexivity. Qed.

(** *** Letting a model go *)




End ModelOwnership.

(** ** Layout: fitting actions, the elements of the lines, layout children *)

Section LayoutMore.

Import Layout.
Open Scope Q_scope.

Lemma Qle_bool_false x y : Qle_bool x y = false ↔ y < x.
Proof.
  split.
  - intros H. apply Qnot_le_lt. intros Hle. apply Qle_bool_iff in Hle. congruence.
  - intros H. destruct (Qle_bool x y) eqn:E; [|done].
    apply Qle_bool_iff in E. lra.
Qed.

(** X14: Which action a fitting mode asks for: stretching when the mode allows
    it and the current size is below the available size, shrinking when
    the mode allows it and the current size is at or above the available
    size, nothing otherwise; a mode that is none of the four throws.  So
    [FITTING_BOTH] always acts, and a line that fills the space exactly is
    shrunk, not stretched. *)
Theorem determineFittingAction_table (mode : Fitting)
    (currentSize availableSize : Q) :
  (determineFittingAction mode currentSize availableSize = Ok APPLY_STRETCHING
   ↔ (mode = FITTING_STRETCH ∨ mode = FITTING_BOTH)
     ∧ currentSize < availableSize) ∧
  (determineFittingAction mode currentSize availableSize = Ok APPLY_SHRINKING
   ↔ (mode = FITTING_SHRINK ∨ mode = FITTING_BOTH)
     ∧ availableSize <= currentSize) ∧
  (determineFittingAction mode currentSize availableSize = Ok NONE
   ↔ mode = FITTING_NONE
     ∨ (mode = FITTING_STRETCH ∧ availableSize <= currentSize)
     ∨ (mode = FITTING_SHRINK ∧ currentSize < availableSize)) ∧
  ((∃ e, determineFittingAction mode currentSize availableSize = Throw e)
   ↔ ∃ n, mode = OtherFitting n).
Proof.
  unfold determineFittingAction.
  destruct (Qgtb availableSize currentSize) eqn:Hgt;
    destruct (Qle_bool availableSize currentSize) eqn:Hle;
    try (apply Qgtb_true in Hgt); try (apply Qgtb_false in Hgt);
    try (apply Qle_bool_iff in Hle); try (apply Qle_bool_false in Hle);
    try lra;
    destruct mode; repeat split;
    try (intros [[?|?] ?]); try (intros [?|[[? ?]|[? ?]]]);
    try (intros [? ?]); try (intros ?);
    try discriminate; try lra; eauto.
Qed.

(** *** The lines hold the included elements *)

Lemma splitLines_loop_concat (a : Axis) (options : Options) allowOverrun items :
  ∀ lines current runningSize,
    concat (splitLines_loop a options allowOverrun items lines current runningSize)
    = concat lines ++ current ++ items.*1.
Proof.
  induction items as [|[element s] rest IH]; intros lines current runningSize.
  - cbn [splitLines_loop fmap list_fmap]. rewrite concat_app. simpl.
    by rewrite !app_nil_r.
  - cbn [splitLines_loop].
    destruct (negb allowOverrun && _ && has_elements current);
      destruct (allowOverrun && _ && has_elements rest);
      rewrite IH; cbn [fmap list_fmap fst]; rewrite ?concat_app; simpl;
      rewrite ?app_nil_r, <- ?app_assoc; reflexivity.
Qed.

Lemma splitLines_loop_nonempty (a : Axis) (options : Options) allowOverrun items :
  ∀ lines current runningSize,
    Forall (λ line, line ≠ []) lines →
    current ≠ [] ∨ items ≠ [] →
    Forall (λ line, line ≠ [])
      (splitLines_loop a options allowOverrun items lines current runningSize).
Proof.
  induction items as [|[element s] rest IH];
    intros lines current runningSize Hlines Hsome.
  - cbn [splitLines_loop]. apply Forall_app. split; [done|].
    constructor; [|constructor]. by destruct Hsome.
  - cbn [splitLines_loop].
    destruct (negb allowOverrun && _ && has_elements current) eqn:E1;
      destruct (allowOverrun && _ && has_elements rest) eqn:E2.
    + apply IH.
      * apply Forall_app. split; [|repeat constructor; by destruct current].
        apply Forall_app. split; [done|].
        apply andb_true_iff in E1 as [_ E1]. repeat constructor.
        by destruct current.
      * right. apply andb_true_iff in E2 as [_ E2]. by destruct rest.
    + apply IH.
      * apply Forall_app. split; [done|].
        apply andb_true_iff in E1 as [_ E1]. repeat constructor.
        by destruct current.
      * by left.
    + apply IH.
      * apply Forall_app. split; [done|]. repeat constructor. by destruct current.
      * right. apply andb_true_iff in E2 as [_ E2]. by destruct rest.
    + apply IH; [done|]. left. by destruct current.
Qed.

Lemma concat_fmap_reverse {A} (lines : list (list A)) :
  concat (reverse <$> lines) ≡ₚ concat lines.
Proof.
  induction lines as [|line lines IH]; [done|].
  cbn [fmap list_fmap concat]. by rewrite IH, reverse_Permutation.
Qed.

Lemma concat_reverse {A} (lines : list (list A)) :
  concat (reverse lines) ≡ₚ concat lines.
Proof.
  induction lines as [|line lines IH]; [done|].
  rewrite reverse_cons, concat_app. cbn [concat].
  rewrite app_nil_r, IH. apply Permutation_app_comm.
Qed.

Lemma reverseLinesIfRequired_concat options (lines : list (list Element)) :
  concat (reverseLinesIfRequired options lines) ≡ₚ concat lines.
Proof.
  unfold reverseLinesIfRequired.
  destruct (orientation options), (reverseX options), (reverseY options);
    rewrite ?concat_reverse, ?concat_fmap_reverse; reflexivity.
Qed.

Lemma reverseLinesIfRequired_nonempty options (lines : list (list Element)) :
  Forall (λ line, line ≠ []) lines →
  Forall (λ line, line ≠ []) (reverseLinesIfRequired options lines).
Proof.
  intros H.
  assert (H1 : Forall (λ line : list Element, line ≠ []) (reverse <$> lines)).
  { apply Forall_fmap. eapply Forall_impl; [exact H|].
    intros line Hline. simpl. intros E. apply Hline.
    apply (f_equal length) in E. rewrite length_reverse in E.
    by destruct line. }
  assert (Hrev : ∀ ls : list (list Element),
            Forall (λ line, line ≠ []) ls → Forall (λ line, line ≠ []) (reverse ls)).
  { intros ls Hls. apply Forall_forall. intros line Hin.
    rewrite elem_of_reverse in Hin. by eapply Forall_forall in Hls. }
  unfold reverseLinesIfRequired.
  destruct (orientation options), (reverseX options), (reverseY options);
    auto.
Qed.

(** X15: [calculateLayout] throws on an orientation that is neither horizontal
    nor vertical.  Otherwise the lines it works on hold exactly the
    elements that take part -- those without an enabled layout-child
    component that excludes them -- each once; in the elements' own order
    when neither axis is reversed; no line is empty when an element takes
    part; and without wrapping there is one line. *)
Theorem layoutLines_hold_the_included (elements : list Element)
    (options : Options) :
  match AXIS_MAPPINGS (orientation options) with
  | None => layoutLines elements options = Throw ConfigError
  | Some _ =>
      let included := filter (λ e, shouldIncludeInLayout e) elements in
      ∃ lines,
        layoutLines elements options = Ok lines ∧
        concat lines ≡ₚ included ∧
        (reverseX options = false → reverseY options = false →
         concat lines = included) ∧
        (included ≠ [] → Forall (λ line, line ≠ []) lines) ∧
        (wrap options = false → length lines = 1%nat)
  end.
Proof.
  unfold layoutLines.
  destruct (AXIS_MAPPINGS (orientation options)) as [a|] eqn:Haxis; [|done].
  cbv zeta. set (included := filter _ elements).
  eexists. split; [reflexivity|].
  assert (Hconcat : concat (splitLines a options included) = included).
  { unfold splitLines. destruct (wrap options); cbn [negb].
    - rewrite splitLines_loop_concat. cbn [concat app].
      apply fst_zip. by rewrite getElementSizeProperties_length.
    - cbn [concat]. apply app_nil_r. }
  split; [by rewrite reverseLinesIfRequired_concat, Hconcat|].
  split.
  { intros Hx Hy. rewrite <- Hconcat at 2. f_equal.
    unfold reverseLinesIfRequired. rewrite Hx, Hy.
    by destruct (orientation options). }
  split.
  { intros Hne. apply reverseLinesIfRequired_nonempty.
    unfold splitLines. destruct (wrap options); cbn [negb].
    - apply splitLines_loop_nonempty; [constructor|]. right.
      unfold getElementSizeProperties. by destruct included.
    - by repeat constructor. }
  intros Hwrap. unfold splitLines, reverseLinesIfRequired. rewrite Hwrap.
  cbn [negb]. destruct (orientation options), (reverseX options),
    (reverseY options); reflexivity.
Qed.

(** *** Layout-child components *)

Definition without_layoutchild (element : Element) : Element :=
  {| element_id := element_id element; layoutchild := None;
     el_props := el_props element; pivot := pivot element;
     anchor := anchor element |}.

Lemma getProperty_disabled {A} element lc (p : property A) :
  layoutchild element = Some lc → lc_enabled lc = false →
  getProperty element p = getProperty (without_layoutchild element) p.
Proof. intros H1 H2. unfold getProperty. rewrite H1, H2. reflexivity. Qed.

(** X16: A layout-child component that is disabled changes nothing: the element
    takes part in the layout even if the component excludes it, and its
    sizes are those it would have without the component. *)
Theorem disabled_layoutchild_is_ignored (element : Element)
    (lc : LayoutChildComponent) :
  layoutchild element = Some lc →
  lc_enabled lc = false →
  shouldIncludeInLayout element = true ∧
  elementSizeProperties element
  = elementSizeProperties (without_layoutchild element).
Proof.
  intros H1 H2. split.
  - unfold shouldIncludeInLayout. by rewrite H1, H2.
  - unfold elementSizeProperties.
    by rewrite !(getProperty_disabled element lc _ H1 H2).
Qed.

(** An element whose layout-child component asks for other sizes and to be
    left out, but is disabled. *)
Definition switched_off : Element :=
  {| element_id := 1;
     layoutchild :=
       Some {| lc_enabled := false; excludeFromLayout := true;
               lc_props :=
                 {| p_minWidth := Number 70; p_minHeight := Undefined;
                    p_maxWidth := Undefined; p_maxHeight := Number (Fin 40);
                    p_width := Number 80; p_height := Number 90;
                    p_fitWidthProportion := Number 1;
                    p_fitHeightProportion := Undefined |} |};
     el_props :=
       {| p_minWidth := Number 5; p_minHeight := Number 10;
          p_maxWidth := Number (Fin 60); p_maxHeight := Null;
          p_width := Number 20; p_height := Number 30;
          p_fitWidthProportion := Null; p_fitHeightProportion := Undefined |};
     pivot := {| x := 0; y := 0 |};
     anchor := {| x4 := 0; y4 := 0; z4 := 0; w4 := 0 |} |}.

Lemma disabled_layoutchild_is_ignored_witness :
  shouldIncludeInLayout switched_off = true ∧
  elementSizeProperties switched_off
  = elementSizeProperties (without_layoutchild switched_off).
Proof.
  eapply (disabled_layoutchild_is_ignored switched_off); reflexivity.
Defined.

End LayoutMore.

(** ** Layout: shrinking a line *)

Section LayoutShrink.

Import Layout.
Open Scope Q_scope.





(** *** The inverse proportions *)





(** *** The traversal order of [shrinkSizesToFitContainer] *)





(** Three elements 100 wide in a group 240 wide; the first may shrink to
    90 at most, the others have no minimum. *)
Definition floored (id : nat) (w : Q) (mn : raw Q) : Element :=
  {| element_id := id; layoutchild := None;
     el_props :=
       {| p_minWidth := mn; p_minHeight := Undefined;
          p_maxWidth := Undefined; p_maxHeight := Undefined;
          p_width := Number w; p_height := Number 10;
          p_fitWidthProportion := Undefined;
          p_fitHeightProportion := Undefined |};
     pivot := {| x := 0; y := 0 |};
     anchor := {| x4 := 0; y4 := 0; z4 := 0; w4 := 0 |} |}.

Definition shrinking : Options :=
  {| orientation := ORIENTATION_HORIZONTAL; wrap := false;
     widthFitting := FITTING_SHRINK; heightFitting := FITTING_NONE;
     spacing := {| x := 0; y := 0 |};
     containerSize := {| x := 240; y := 50 |};
     padding := {| x4 := 0; y4 := 0; z4 := 0; w4 := 0 |};
     alignment := {| x := 0; y := 0 |};
     reverseX := false; reverseY := false |}.

Definition floored_line : list Element :=
  [floored 1 100 (Number 90); floored 2 100 Undefined; floored 3 100 Undefined].


(** The line above, computed: the first element stops at its minimum 90,
    and the other two give up the remaining 50 in equal parts. *)
Example floored_line_sizes :
  ∃ s1 s2 s3,
    calculateLineSizesOnAxisA AXIS_X shrinking floored_line = Ok [s1; s2; s3] ∧
    width s1 == 90 ∧ width s2 == 75 ∧ width s3 == 75.
Proof. eexists _, _, _. split; [reflexivity|]. repeat split. Qed.

End LayoutShrink.
